(** * telebot: the phrase store, the similarity matcher, the command router
      and the polling loop of [telebot.py]

    A shallow embedding of class [TelegramBot].  Python [str] values are
    sequences of code points; lengths and indices are natural numbers;
    Python [int]s are [Z].  The file system, the process table, the clock and
    the bot's cursor are fields of one explicit [world] that the methods
    thread through; the HTTP transport is an input (what the server answered)
    and an output (the trace of requests made).  A method that can raise is a
    computation [M] that returns a value or raises, after changing the
    world. *)

From Stdlib Require Import ZArith NArith List Ascii String Lia DecimalString.
From Stdlib Require DecimalPos DecimalZ.
From stdpp Require Import base list gmap.

(** ** Python strings *)

(** A character is a code point, a [str] is a list of them. *)
Abbreviation char := N.
Abbreviation pystr := (list N).

(** String literals of the source, written as Rocq strings. *)
Definition str (s : string) : pystr := map N_of_ascii (list_ascii_of_string s).

(** [range(lo, hi)] and the slice [s[lo:hi]] for [0 <= lo <= hi]. *)
Definition py_range (lo hi : nat) : list nat := seq lo (hi - lo).
Definition py_slice {A} (s : list A) (lo hi : nat) : list A :=
  take (hi - lo) (drop lo s).

(** [str.isspace] on one character: the code points CPython's
    [_PyUnicode_IsWhitespace] accepts.  [strip] and [split] use it. *)
Definition py_isspace (c : char) : bool :=
  ((9 <=? c) && (c <=? 13) || (28 <=? c) && (c <=? 32) || (c =? 133)
   || (c =? 160) || (c =? 5760) || (8192 <=? c) && (c <=? 8202)
   || (c =? 8232) || (c =? 8233) || (c =? 8239) || (c =? 8287)
   || (c =? 12288))%N.

Fixpoint py_lstrip (s : pystr) : pystr :=
  match s with
  | c :: s' => if py_isspace c then py_lstrip s' else s
  | [] => []
  end.
Definition py_rstrip (s : pystr) : pystr := rev (py_lstrip (rev s)).
Definition py_strip (s : pystr) : pystr := py_rstrip (py_lstrip s).

(** The pieces of [s] between the characters that satisfy [sep]; always at
    least one piece. *)
Fixpoint split_on (sep : char → bool) (s : pystr) : list pystr :=
  match s with
  | [] => [[]]
  | c :: s' =>
      if sep c then [] :: split_on sep s'
      else match split_on sep s' with
           | piece :: rest => (c :: piece) :: rest
           | [] => [[c]]
           end
  end.

Definition nonempty (s : pystr) : bool :=
  match s with [] => false | _ => true end.

(** [s.split()]: the non-empty runs between whitespace. *)
Definition py_split (s : pystr) : list pystr :=
  List.filter nonempty (split_on py_isspace s).

(** [s.split(sep, 1)] for a one-character [sep]: at most one cut, at the
    first [sep]. *)
Fixpoint py_split1 (sep : char) (s : pystr) : list pystr :=
  match s with
  | [] => [[]]
  | c :: s' =>
      if (c =? sep)%N then [[]; s']
      else match py_split1 sep s' with
           | first :: rest => (c :: first) :: rest
           | [] => [[c]]
           end
  end.

Fixpoint py_startswith (p s : pystr) : bool :=
  match p, s with
  | [], _ => true
  | a :: p', b :: s' => (a =? b)%N && py_startswith p' s'
  | _ :: _, [] => false
  end.

(** [s.replace(old, new)] for a non-empty [old]: occurrences are replaced
    left to right without overlap; [skip] counts the characters of a matched
    occurrence still to be passed over. *)
Fixpoint replace_from (old new s : pystr) (skip : nat) : pystr :=
  match s with
  | [] => []
  | c :: s' =>
      match skip with
      | S k => replace_from old new s' k
      | 0 =>
          if py_startswith old s
          then new ++ replace_from old new s' (length old - 1)
          else c :: replace_from old new s' 0
      end
  end.
Definition py_replace (old new s : pystr) : pystr := replace_from old new s 0.

(** [string.punctuation], the 32 ASCII punctuation characters, and
    [s.translate(str.maketrans('', '', string.punctuation))]. *)
Definition string_punctuation : pystr :=
  map N.of_nat (seq 33 15 ++ seq 58 7 ++ seq 91 6 ++ seq 123 4).
Definition strip_punctuation (s : pystr) : pystr :=
  List.filter (λ c, negb (existsb (N.eqb c) string_punctuation)) s.

(** [str(n)] for an [int]. *)
Definition py_str_int (z : Z) : pystr := str (NilZero.string_of_int (Z.to_int z)).

(** [x or y] on strings. *)
Definition py_or (x y : pystr) : pystr := if nonempty x then x else y.

(** [random.choice(seq)] for a non-empty [seq], with the generator's draw
    [rnd] made explicit: the element at [rnd mod len(seq)]. *)
Definition random_choice {A} (rnd : nat) (l : list A) : option A :=
  l !! (rnd mod length l).

(** Case mapping and classification are Unicode tables that the program takes
    from the interpreter.  They are an interface here; what the development
    relies on is that [str.lower] maps an ASCII string letter by letter. *)
Definition ascii_lower (c : char) : char :=
  if ((65 <=? c) && (c <=? 90))%N then (c + 32)%N else c.
Definition ascii_isalnum (c : char) : bool :=
  ((48 <=? c) && (c <=? 57) || (65 <=? c) && (c <=? 90)
   || (97 <=? c) && (c <=? 122))%N.
Definition is_ascii (s : pystr) : Prop := Forall (λ c, (c < 128)%N) s.

Class Unicode := {
  py_lower : pystr → pystr;
  py_isalnum : char → bool;
  py_lower_ascii : ∀ s, is_ascii s → py_lower s = map ascii_lower s;
  py_isalnum_ascii : ∀ c, (c < 128)%N → py_isalnum c = ascii_isalnum c
}.

(** ** [longest_common_substring] *)

Record lcs_state := LcsState {
  dp : list (list nat);
  max_len : nat;
  end_pos : nat
}.

(** [dp[i][j]] and [dp[i][j] = v]; the loops only touch cells inside the
    table, where Python raises nothing. *)
Definition dp_get (t : list (list nat)) (i j : nat) : nat :=
  default 0 (t !! i ≫= (.!! j)).
Definition dp_set (t : list (list nat)) (i j v : nat) : list (list nat) :=
  alter (<[j:=v]>) i t.

(** The body of the inner loop at cell [(i, j)]. *)
Definition lcs_cell (s1 s2 : pystr) (i j : nat) (st : lcs_state) : lcs_state :=
  match s1 !! (i - 1), s2 !! (j - 1) with
  | Some a, Some b =>
      if (a =? b)%N then
        let v := dp_get (dp st) (i - 1) (j - 1) + 1 in
        let t := dp_set (dp st) i j v in
        if max_len st <? v then LcsState t v i
        else LcsState t (max_len st) (end_pos st)
      else st
  | _, _ => st
  end.

(** [for j in range(1, n + 1)] for one [i]. *)
Definition lcs_row (s1 s2 : pystr) (i : nat) (st : lcs_state) : lcs_state :=
  foldl (λ st j, lcs_cell s1 s2 i j st) st (py_range 1 (length s2 + 1)).

Definition lcs_init (m n : nat) : lcs_state :=
  LcsState (replicate (m + 1) (replicate (n + 1) 0)) 0 0.

(** [for i in range(1, m + 1)]. *)
Definition lcs_table (s1 s2 : pystr) : lcs_state :=
  foldl (λ st i, lcs_row s1 s2 i st)
        (lcs_init (length s1) (length s2))
        (py_range 1 (length s1 + 1)).

Definition longest_common_substring (s1 s2 : pystr) : pystr :=
  let st := lcs_table s1 s2 in
  if 0 <? max_len st
  then py_slice s1 (end_pos st - max_len st) (end_pos st)
  else [].

(** [t] occurs in [s] as a contiguous run. *)
Definition substring_of (t s : pystr) : Prop := ∃ l r, s = l ++ t ++ r.

(** [t in s], decided by trying every position. *)
Definition occurs_in (t s : pystr) : bool :=
  existsb (λ k, py_startswith t (drop k s)) (seq 0 (S (length s))).

(** The length of the longest common suffix of [s1[:i]] and [s2[:j]]: what
    the table holds at [(i, j)] once the cell has been visited. *)
Fixpoint csuf (s1 s2 : pystr) (i j : nat) : nat :=
  match i, j with
  | S i', S j' =>
      match s1 !! i', s2 !! j' with
      | Some a, Some b => if (a =? b)%N then S (csuf s1 s2 i' j') else 0
      | _, _ => 0
      end
  | _, _ => 0
  end.

(** Cell [(a, b)] has been visited when the loops stand at [(i, k)]. *)
Definition cell_done (i k a b : nat) : Prop := a < i ∨ (a = i ∧ b ≤ k).

Record lcs_inv (s1 s2 : pystr) (i k : nat) (st : lcs_state) : Prop := {
  inv_rows : length (dp st) = length s1 + 1;
  inv_cols : Forall (λ r, length r = length s2 + 1) (dp st);
  inv_dp : ∀ a b, a ≤ length s1 → b ≤ length s2 →
    dp_get (dp st) a b = if decide (cell_done i k a b) then csuf s1 s2 a b else 0;
  inv_max : ∀ a b, a ≤ length s1 → b ≤ length s2 → cell_done i k a b →
    csuf s1 s2 a b ≤ max_len st;
  inv_end : max_len st = 0 ∨
    ∃ b, end_pos st ≤ length s1 ∧ b ≤ length s2 ∧
         csuf s1 s2 (end_pos st) b = max_len st
}.

(** ** The world the bot runs in *)

(** What the bot asks of the outside: a long poll, a reply, a pause of
    [factor] times the configured interval. *)
Inductive event :=
  | EvGetUpdates (offset limit timeout : Z)
  | EvSendMessage (chat_id : Z) (text : pystr)
  | EvSleep (factor : nat).

Record world := World {
  files : gmap (list N) (list N);   (* regular files outside /proc, by path,
                                       with their content as text *)
  can_read : pystr → bool;          (* open(path, 'r') does not raise *)
  can_write : pystr → bool;         (* open(path, 'a' or 'w') does not raise *)
  can_remove : pystr → bool;        (* os.remove(path) does not raise *)
  proc_entries : pystr → bool;      (* names present under /proc *)
  net_send : Z → pystr → bool;      (* the sendMessage POST goes through *)
  ctime : pystr;                    (* time.ctime() *)
  getpid : Z;                       (* os.getpid() *)
  offset : Z;                       (* self.offset, the cursor *)
  trace : list event                (* requests and pauses so far *)
}.

Definition with_files (f : gmap (list N) (list N)) (w : world) : world :=
  World f (can_read w) (can_write w) (can_remove w) (proc_entries w) (net_send w)
        (ctime w) (getpid w) (offset w) (trace w).
Definition with_offset (o : Z) (w : world) : world :=
  World (files w) (can_read w) (can_write w) (can_remove w) (proc_entries w)
        (net_send w) (ctime w) (getpid w) o (trace w).
Definition emit (e : event) (w : world) : world :=
  World (files w) (can_read w) (can_write w) (can_remove w) (proc_entries w)
        (net_send w) (ctime w) (getpid w) (offset w) (trace w ++ [e]).

(** [os.path.exists]: a path under /proc is looked up in the process table,
    any other among the files. *)
Definition os_path_exists (p : pystr) (w : world) : bool :=
  if py_startswith (str "/proc/") p then proc_entries w (drop 6 p)
  else match files w !! p with Some _ => true | None => false end.

(** Reading and overwriting a file; [None] is Python's [IOError]. *)
Definition read_file (p : pystr) (w : world) : option pystr :=
  if can_read w p then files w !! p else None.
Definition write_file (p text : pystr) (w : world) : option world :=
  if can_write w p then Some (with_files (<[p := text]> (files w)) w) else None.
(** [os.remove] inside [try: ... except: pass]: a removal that fails leaves
    the file where it is. *)
Definition remove_file (p : pystr) (w : world) : world :=
  if can_remove w p then with_files (delete p (files w)) w else w.

(** Exceptions that leave a method, and computations that may raise one
    after changing the world. *)
Inductive exn :=
  | KeyError (key : pystr)
  | UnboundLocalError (name : pystr)
  | IOError                    (* [OSError] and its subclasses *)
  | ValueError
  | UnicodeEncodeError.

Inductive outcome (A : Type) :=
  | Ret (a : A)
  | Raise (e : exn).
Arguments Ret {A} a.
Arguments Raise {A} e.

Definition M (A : Type) : Type := world → outcome A * world.

Definition ret {A} (a : A) : M A := λ w, (Ret a, w).
Definition bind {A B} (m : M A) (k : A → M B) : M B := λ w,
  match m w with
  | (Ret a, w') => k a w'
  | (Raise e, w') => (Raise e, w')
  end.
Notation "x <- m ;; k" := (bind m (λ x, k))
  (at level 100, m at next level, right associativity).
Definition raise {A} (e : exn) : M A := λ w, (Raise e, w).
(** [try: m except <handled>: handler]. *)
Definition try_except (m : M unit) (handled : exn → bool) (handler : M unit)
  : M unit := λ w,
  match m w with
  | (Raise e, w') => if handled e then handler w' else (Raise e, w')
  | result => result
  end.
Definition is_ioerror (e : exn) : bool :=
  match e with IOError => true | _ => false end.

(** Text that the UTF-8 codec encodes: no surrogate code point (and nothing
    beyond U+10FFFF, which no [str] holds). *)
Definition is_surrogate (c : char) : bool := ((55296 <=? c) && (c <=? 57343))%N.
Definition utf8_encodable (s : pystr) : bool :=
  forallb (λ c, negb (is_surrogate c) && (c <=? 1114111)%N) s.

(** What [open] raises for a file name the operating system interface cannot
    take: [UnicodeEncodeError] for a code point the file-system encoding
    (UTF-8 with surrogateescape) does not encode, [ValueError] for an
    embedded NUL; [None] for every other name. *)
Definition path_error (p : pystr) : option exn :=
  if negb (forallb (λ c, (negb (is_surrogate c) || (56448 <=? c) && (c <=? 56575))
                         && (c <=? 1114111))%N p)
  then Some UnicodeEncodeError
  else if existsb (N.eqb 0) p then Some ValueError
  else None.

(** [with open(p, 'a', encoding='utf-8') as f: f.write(text)].  When the
    file cannot be opened, [open] raises: [IOError] unless the name itself
    is at fault.  Once it is open the file exists; the text is encoded as a
    whole before any of it is written, so text that cannot be encoded
    raises [UnicodeEncodeError] and leaves the content as it was. *)
Definition append_file (p text : pystr) : M unit := λ w,
  if can_write w p then
    if utf8_encodable text
    then (Ret tt,
          with_files (<[p := default [] (files w !! p) ++ text]> (files w)) w)
    else (Raise UnicodeEncodeError,
          with_files (<[p := default [] (files w !! p)]> (files w)) w)
  else (Raise (default IOError (path_error p)), w).

(** [d[key]] when the key may be absent. *)
Definition getitem {A} (key : string) (v : option A) : M A :=
  match v with Some a => ret a | None => raise (KeyError (str key)) end.

(** ** Updates, as the Bot API sends them *)

Record tg_chat := TgChat {
  c_id : option Z;
  c_type : option pystr;
  c_title : option pystr
}.
Record tg_user := TgUser {
  u_first_name : option pystr;
  u_last_name : option pystr;
  u_id : option Z
}.
Record tg_message := TgMessage {
  m_text : option pystr;
  m_chat : option tg_chat;
  m_from : option tg_user
}.
Record tg_update := TgUpdate {
  update_id : Z;
  message : option tg_message
}.

(** The decoded body of a [getUpdates] answer, and what one request to the
    server can come to. *)
Record tg_envelope := TgEnvelope {
  env_ok : option bool;
  env_result : option (list tg_update)
}.
Inductive http_result :=
  | NetworkError                  (* requests.get raised a RequestException *)
  | HttpError                     (* raise_for_status raised: bad status *)
  | BadJson                       (* response.json() raised JSONDecodeError *)
  | Json (data : tg_envelope).

(** A value passed where the source calls [str(...)] on it. *)
Inductive pyarg :=
  | PyInt (z : Z)
  | PyStr (s : pystr).
Definition py_str (v : pyarg) : pystr :=
  match v with PyInt z => py_str_int z | PyStr s => s end.

(** ** [get_updates] and [send_message] *)

Definition get_updates (resp : http_result) (w : world)
  : option (list tg_update) * world :=
  let w := emit (EvGetUpdates (offset w + 1) 100 30) w in
  match resp with
  | Json data =>
      match env_ok data, env_result data with
      | Some true, Some (u :: us) =>
          let updates := u :: us in
          (Some updates, with_offset (update_id (List.last updates u)) w)
      | _, _ => (None, w)
      end
  | NetworkError | HttpError | BadJson => (None, w)
  end.

Definition send_message (chat_id : Z) (text : pystr) (w : world) : bool * world :=
  (net_send w chat_id text, emit (EvSendMessage chat_id text) w).

(** ** [log_event] and [extract_message_info] *)

Section bot.
Context {U : Unicode}.

Definition log_event (text logname : pystr) : M unit := λ w,
  let safe_name :=
    py_rstrip (List.filter
      (λ c, py_isalnum c || existsb (N.eqb c) (str " -_")) logname) in
  let safe_name := if nonempty safe_name then safe_name else str "unknown" in
  let filename := str "chatlogs/" ++ safe_name ++ str "_log.txt" in
  try_except
    (append_file filename (ctime w ++ str " >> " ++ text ++ [10%N]))
    is_ioerror (ret tt) w.

Definition empty_user : tg_user := TgUser None None None.

(** [f"User {from_user.get('id', '')}"]. *)
Definition user_fallback (from_user : tg_user) : pystr :=
  str "User " ++ match u_id from_user with Some i => py_str_int i | None => [] end.

Definition extract_message_info (update : tg_update)
  : M (option (pystr * Z * pystr * Z)) :=
  match message update with
  | None => ret None
  | Some message =>
      match m_text message with
      | None => ret None
      | Some text =>
          chat <- getitem "chat" (m_chat message);;
          let from_user := default empty_user (m_from message) in
          chat_id <- getitem "id" (c_id chat);;
          let chat_type := default (str "private") (c_type chat) in
          if bool_decide (chat_type = str "group")
             || bool_decide (chat_type = str "supergroup")
          then
            let chat_name :=
              default (str "Chat " ++ py_str_int chat_id) (c_title chat) in
            (* the log line reads first_name, bound on the other branch only *)
            raise (UnboundLocalError (str "first_name"))
          else
            let first_name := default [] (u_first_name from_user) in
            let last_name := default [] (u_last_name from_user) in
            let chat_name :=
              py_or (py_strip (first_name ++ str " " ++ last_name))
                    (user_fallback from_user) in
            let user_name :=
              py_or (py_strip (first_name ++ str " " ++ last_name))
                    (user_fallback from_user) in
            _ <- log_event (str "Message from " ++ user_name ++ str ": " ++ text)
                           chat_name;;
            ret (Some (text, chat_id, chat_name, chat_id))
      end
  end.

(** ** [learn_phrase] *)

Definition safe_chat_id (chat_number : pyarg) : pystr :=
  py_replace (str "-") [] (py_replace (str "+") [] (py_str chat_number)).

Definition corpus_file (chat_number : pyarg) : pystr :=
  str "dict/" ++ safe_chat_id chat_number ++ str "_words.dat".

Definition learn_phrase (phrase : pystr) (chat_number : pyarg) : M unit :=
  let phrase := py_strip (py_replace (str "/learn") [] phrase) in
  if nonempty phrase then
    try_except
      (append_file (corpus_file chat_number) (phrase ++ [10%N]))
      is_ioerror (ret tt)
  else ret tt.

(** ** [find_similar_phrases] *)

(** The lines of a text file read with universal newlines, without their
    terminators (the caller strips each line and drops the empty ones). *)
Definition is_newline (c : char) : bool := ((c =? 10) || (c =? 13))%N.
Definition file_phrases (content : pystr) : list pystr :=
  List.filter nonempty (map py_strip (split_on is_newline content)).

(** [s.lower().translate(...).split()]. *)
Definition words (s : pystr) : list pystr :=
  py_split (strip_punctuation (py_lower s)).

(** [len(common) >= 0.8 * len(phr_word)].  The product is a float; for
    lengths below 2^50 the rounded product compares with an integer exactly
    as the rational 4/5 of the length does, which is the comparison here. *)
Definition word_hit (msg_word phr_word : pystr) : bool :=
  4 * length phr_word <=? 5 * length (longest_common_substring msg_word phr_word).

(** [for phr_word in phrase_words]: append the phrase at the first hit. *)
Fixpoint scan_phrase_words (phrase msg_word : pystr) (phrase_words : list pystr)
    (matched_phrases : list pystr) : list pystr :=
  match phrase_words with
  | [] => matched_phrases
  | phr_word :: rest =>
      if word_hit msg_word phr_word then matched_phrases ++ [phrase]
      else scan_phrase_words phrase msg_word rest matched_phrases
  end.

(** [for msg_word in message_words]: stop once the phrase is among the
    matched ones. *)
Fixpoint scan_message_words (phrase : pystr) (message_words phrase_words : list pystr)
    (matched_phrases : list pystr) : list pystr :=
  match message_words with
  | [] => matched_phrases
  | msg_word :: rest =>
      let matched_phrases :=
        scan_phrase_words phrase msg_word phrase_words matched_phrases in
      if bool_decide (phrase ∈ matched_phrases) then matched_phrases
      else scan_message_words phrase rest phrase_words matched_phrases
  end.

(** [for phrase in phrases], from an empty [matched_phrases]. *)
Definition match_phrases (message_words phrases : list pystr) : list pystr :=
  foldl (λ matched_phrases phrase,
           scan_message_words phrase message_words (words phrase) matched_phrases)
        [] phrases.

(** The phrases [find_similar_phrases] loads for a chat: nothing when the
    file is missing or cannot be read. *)
Definition load_phrases (chat_number : pyarg) (w : world) : list pystr :=
  if os_path_exists (corpus_file chat_number) w then
    match read_file (corpus_file chat_number) w with
    | Some content => file_phrases content
    | None => []
    end
  else [].

(** The qualifying set: [matched_phrases] when the method reaches its end. *)
Definition qualifying (message : pystr) (chat_number : pyarg) (w : world)
  : list pystr :=
  match_phrases (words message) (load_phrases chat_number w).

Definition find_similar_phrases (message : pystr) (chat_number : pyarg)
    (rnd : nat) (w : world) : option pystr :=
  let filename := corpus_file chat_number in
  if negb (os_path_exists filename w) then None
  else
    match read_file filename w with
    | None => None
    | Some content =>
        let phrases := file_phrases content in
        match phrases with
        | [] => None
        | _ =>
            let message_words := words message in
            let matched_phrases := match_phrases message_words phrases in
            match matched_phrases with
            | [] => None
            | _ => random_choice rnd matched_phrases
            end
        end
    end.

(** ** [process_message] *)

Definition help_text : pystr :=
  str "Telebot - Simple Telegram Bot" ++ [10%N] ++ str "Commands:" ++ [10%N]
  ++ str "/help - Show help" ++ [10%N]
  ++ str "/learn <phrase> - Teach bot a phrase" ++ [10%N]
  ++ str "/start - Start bot".

Definition process_message (message chat_name : pystr) (chat_number : pyarg)
    (rnd : nat) : M (option pystr) :=
  let fall_through : M (option pystr) :=
    λ w, (Ret (find_similar_phrases message chat_number rnd w), w) in
  if py_startswith (str "/") message then
    let parts := py_split1 32 message in
    let command := py_lower (nth 0 parts []) in
    if bool_decide (command = str "/help") then ret (Some help_text)
    else if bool_decide (command = str "/stop") then ret (Some (str "Bot stopped"))
    else if bool_decide (command = str "/start") then ret (Some (str "Bot started!"))
    else if bool_decide (command = str "/learn") && (1 <? length parts) then
      _ <- learn_phrase (nth 1 parts []) chat_number;;
      ret (Some (str "Phrase learned!"))
    else fall_through
  else fall_through.

(** ** [run] *)

(** The body of [for update in updates]; [rnd] is the generator's draw for
    this update. *)
Definition handle_update (rnd : nat) (update : tg_update) : M unit :=
  message_info <- extract_message_info update;;
  match message_info with
  | Some (text, chat_id, chat_name, chat_number) =>
      response <- process_message text chat_name (PyInt chat_number) rnd;;
      match response with
      | Some (c :: r) => λ w, (Ret tt, (send_message chat_id (c :: r) w).2)
      | _ => ret tt
      end
  | None => ret tt
  end.

Fixpoint handle_updates (rnd : nat → nat) (updates : list tg_update) : M unit :=
  match updates with
  | [] => ret tt
  | update :: rest =>
      _ <- handle_update (rnd 0) update;;
      handle_updates (λ k, rnd (S k)) rest
  end.

(** The inner [try] block of one turn of [while True], up to its pause. *)
Definition run_batch (resp : http_result) (rnd : nat → nat) : M unit := λ w,
  let '(updates, w) := get_updates resp w in
  match updates with
  | Some updates => handle_updates rnd updates w
  | None => (Ret tt, w)
  end.

(** One turn of [while True]: the inner [try] block with its pause, or the
    doubled pause of the handler when the block raises.  The configured
    interval is taken to be a valid one, so that [time.sleep] itself raises
    nothing. *)
Definition run_iteration (resp : http_result) (rnd : nat → nat) (w : world) : world :=
  let '(result, w) := run_batch resp rnd w in
  match result with
  | Ret _ => emit (EvSleep 1) w
  | Raise _ => emit (EvSleep 2) w
  end.

(** What happens during one turn of the loop: the server's answer and the
    generator's draws, or the operator's interrupt ([KeyboardInterrupt]).
    The interrupt is taken between two turns and where a turn waits: during
    the poll, once the request is out, and during the pause that ends the
    turn. *)
Inductive tick :=
  | Tick (resp : http_result) (rnd : nat → nat)
  | Interrupt
  | PollInterrupt
  | PauseInterrupt (resp : http_result) (rnd : nat → nat).

Definition lock_file : pystr := str "tmp/telebot.lock".

(** The lock check and the lock creation at the head of [run]. *)
Inductive lock_result :=
  | AlreadyRunning            (* a live instance holds the lock: return *)
  | CannotLock                (* the lock file cannot be written: return *)
  | Locked (w : world).

Definition run_lock (w : world) : lock_result :=
  let live :=
    if os_path_exists lock_file w then
      match read_file lock_file w with
      | Some content => os_path_exists (str "/proc/" ++ py_strip content) w
      | None => false
      end
    else false in
  if live then AlreadyRunning
  else match write_file lock_file (py_str_int (getpid w)) w with
       | Some w' => Locked w'
       | None => CannotLock
       end.

(** How far [run] got on a given script of ticks. *)
Inductive run_result :=
  | Refused (w : world)       (* returned at the lock check *)
  | LockFailed (w : world)    (* returned because the lock could not be written *)
  | Stopped (w : world)       (* interrupted inside the [try]: [break], then [finally] *)
  | Aborted (w : world)       (* interrupted inside the handler: [finally], then
                                 the interrupt leaves [run] *)
  | Running (w : world).      (* still looping when the script ends *)

(** The loop with its [finally] block.  An interrupt inside the inner [try]
    block, the poll and the plain pause included, is caught there and breaks
    the loop ([requests] lets it through, and [get_updates] catches request
    and JSON errors only); an interrupt during the doubled pause is raised
    inside the handler of [except Exception], where nothing catches it.
    Either way the [finally] block then tries to remove the lock file. *)
Fixpoint run_loop (script : list tick) (w : world) : run_result :=
  match script with
  | [] => Running w
  | Interrupt :: _ => Stopped (remove_file lock_file w)
  | PollInterrupt :: _ =>
      Stopped (remove_file lock_file (emit (EvGetUpdates (offset w + 1) 100 30) w))
  | PauseInterrupt resp rnd :: _ =>
      let w' := remove_file lock_file (run_iteration resp rnd w) in
      match (run_batch resp rnd w).1 with
      | Ret _ => Stopped w'
      | Raise _ => Aborted w'
      end
  | Tick resp rnd :: rest => run_loop rest (run_iteration resp rnd w)
  end.

Definition run (script : list tick) (w : world) : run_result :=
  match run_lock w with
  | AlreadyRunning => Refused w
  | CannotLock => LockFailed w
  | Locked w' => run_loop script w'
  end.

End bot.

(** The case mapping that leaves every non-ASCII character alone: one
    [Unicode] table, used to run the bot on ASCII inputs. *)
Definition ascii_tables : Unicode :=
  {| py_lower := map ascii_lower;
     py_isalnum := ascii_isalnum;
     py_lower_ascii := λ _ _, eq_refl;
     py_isalnum_ascii := λ _ _, eq_refl |}.

(** The key the specification describes: characters outside
    [A-Za-z0-9 _-] removed, ["unknown"] when nothing is left. *)
Definition allow_listed (c : char) : bool :=
  ascii_isalnum c || existsb (N.eqb c) (str " _-").
Definition spec_chat_key (chat_key : pystr) : pystr :=
  let k := List.filter allow_listed chat_key in
  if nonempty k then k else str "unknown".

(** Some word of the message hits some word of the phrase. *)
Definition phrase_hits (message_words phrase_words : list pystr) : Prop :=
  ∃ msg_word phr_word,
    In msg_word message_words ∧ In phr_word phrase_words ∧
    4 * length phr_word ≤ 5 * length (longest_common_substring msg_word phr_word).

(** A string that is empty or starts with a character that is no
    whitespace: what [lstrip] returns. *)
Definition starts_clean (s : pystr) : Prop :=
  match s with [] => True | c :: _ => py_isspace c = false end.

(** A corpus file is closed when it is empty or ends with a line feed; every
    write of [learn_phrase] leaves it so. *)
Definition closed_text (content : pystr) : Prop :=
  content = [] ∨ ∃ c, content = c ++ [10%N].

(** The corpus file of a chat is absent or closed. *)
Definition corpus_closed (chat_number : pyarg) (w : world) : Prop :=
  match files w !! corpus_file chat_number with
  | Some content => closed_text content
  | None => True
  end.

(** What [learn_phrase] keeps of its argument. *)
Definition stored_phrase (phrase : pystr) : pystr :=
  py_strip (py_replace (str "/learn") [] phrase).

(** A world with no files in which every file operation is permitted. *)
Definition empty_world : world :=
  World ∅ (λ _, true) (λ _, true) (λ _, true) (λ _, false) (λ _ _, true)
        (str "Thu Jan  1 00:00:00 1970") 4242 0 [].

(** ** Notions for the further properties *)

(** [end_pos] is the first row in which the current maximum was seen. *)
Definition lcs_first (s1 s2 : pystr) (i k : nat) (st : lcs_state) : Prop :=
  end_pos st ≤ i ∧
  ∀ a b, a ≤ length s1 → b ≤ length s2 → cell_done i k a b →
         0 < max_len st → csuf s1 s2 a b = max_len st → end_pos st ≤ a.

(** The file [log_event] writes to: the [filename] it builds from the log
    name. *)
Definition log_file_name {U : Unicode} (logname : pystr) : pystr :=
  let safe_name :=
    py_rstrip (List.filter
      (λ c, py_isalnum c || existsb (N.eqb c) (str " -_")) logname) in
  let safe_name := if nonempty safe_name then safe_name else str "unknown" in
  str "chatlogs/" ++ safe_name ++ str "_log.txt".

(** An update the bot has nothing to do with: no message, or no text. *)
Definition textless (update : tg_update) : Prop :=
  match message update with
  | None => True
  | Some msg => m_text msg = None
  end.

(** A text-bearing update on which [extract_message_info] raises: the chat
    or its id is missing, or the chat is a group. *)
Definition raising (update : tg_update) : Prop :=
  ∃ msg text, message update = Some msg ∧ m_text msg = Some text ∧
    match m_chat msg with
    | None => True
    | Some chat =>
        c_id chat = None ∨ c_type chat = Some (str "group")
        ∨ c_type chat = Some (str "supergroup")
    end.

(** A text-bearing update of a private chat, with the parts the bot reads. *)
Definition private_text (update : tg_update) (text : pystr) (chat_id : Z)
    (from_user : tg_user) : Prop :=
  ∃ msg chat, message update = Some msg ∧ m_text msg = Some text ∧
    m_chat msg = Some chat ∧ c_id chat = Some chat_id ∧
    c_type chat ≠ Some (str "group") ∧ c_type chat ≠ Some (str "supergroup") ∧
    from_user = default empty_user (m_from msg).

(** The display name of a private chat. *)
Definition private_chat_name (from_user : tg_user) : pystr :=
  py_or (py_strip (default [] (u_first_name from_user) ++ str " "
                   ++ default [] (u_last_name from_user)))
        (user_fallback from_user).

(** A reply among the events. *)
Definition is_send (e : event) : bool :=
  match e with EvSendMessage _ _ => true | _ => false end.

(** The world [run] has reached. *)
Definition world_of (r : run_result) : world :=
  match r with
  | Refused w | LockFailed w | Stopped w | Aborted w | Running w => w
  end.

(** Every corpus file is closed. *)
Definition all_closed (w : world) : Prop :=
  ∀ chat_number content,
    files w !! corpus_file chat_number = Some content → closed_text content.

(** [w'] is [w], or [w] but for text added, possibly none, at the end of the
    file [path], which exists in [w']. *)
Definition appended_to (path : pystr) (w w' : world) : Prop :=
  w' = w ∨
  ∃ added,
    w' = with_files (<[path := default [] (files w !! path) ++ added]> (files w)) w.

(** Two more private messages of chat 7: one whose text is a lone
    surrogate, half of an emoji, and one that teaches the phrase
    "hello world". *)
Definition surrogate_private : tg_update :=
  TgUpdate 4 (Some (TgMessage (Some [55357%N])
                      (Some (TgChat (Some 7%Z) None None)) None)).
Definition learn_private : tg_update :=
  TgUpdate 3 (Some (TgMessage (Some (str "/learn hello world"))
                      (Some (TgChat (Some 7%Z) None None)) None)).

(** The lock file names a live process and can be read. *)
Definition lock_is_live (w : world) : Prop :=
  ∃ content, files w !! lock_file = Some content ∧ can_read w lock_file = true ∧
             proc_entries w (py_strip content) = true.

(** Two sample updates: "hello" from the private chat 7 and from the group -5. *)
Definition hello_private : tg_update :=
  TgUpdate 2 (Some (TgMessage (Some (str "hello"))
                      (Some (TgChat (Some 7%Z) None None)) None)).
Definition hello_group : tg_update :=
  TgUpdate 1 (Some (TgMessage (Some (str "hello"))
                      (Some (TgChat (Some (-5)%Z) (Some (str "group")) None)) None)).

(** * Proofs *)

(** ** The model at work *)

Example lcs_hello_yellow :
  longest_common_substring (str "hello world") (str "yellow") = str "ello".
Proof. reflexivity. Qed.

Example lcs_first_maximum :
  longest_common_substring (str "abxcd") (str "cdab") = str "ab".
Proof. reflexivity. Qed.

Example replace_is_left_to_right :
  py_replace (str "/learn") [] (str "x/learn/lea/learnrn y") = str "x/learn y".
Proof. reflexivity. Qed.

Example words_of_a_message :
  words (U:=ascii_tables) (str "Hello, World!  it's") =
  [str "hello"; str "world"; str "its"].
Proof. reflexivity. Qed.

Example lines_of_a_file :
  file_phrases (str "a b" ++ [13; 10]%N ++ str " c " ++ [10; 10]%N) =
  [str "a b"; str "c"].
Proof. reflexivity. Qed.

(** The scenario of a private chat teaching a phrase: the corpus gets the
    line, the confirmation is sent, the cursor moves to the update's id. *)
Example learn_cats_end_to_end :
  let update :=
    TgUpdate 5 (Some (TgMessage (Some (str "/learn cats are great"))
                        (Some (TgChat (Some 1%Z) (Some (str "private")) None))
                        (Some (TgUser (Some (str "A")) None None)))) in
  let w := run_iteration (U:=ascii_tables)
             (Json (TgEnvelope (Some true) (Some [update]))) (λ _, 0) empty_world in
  files w !! str "dict/1_words.dat" = Some (str "cats are great" ++ [10%N]) ∧
  trace w = [EvGetUpdates 1 100 30;
             EvSendMessage 1 (str "Phrase learned!");
             EvSleep 1] ∧
  offset w = 5%Z.
Proof. vm_compute. repeat split. Qed.

(** A private message whose text is a lone surrogate cannot be logged:
    the write raises, the turn ends with the doubled pause, and nothing is
    learned or sent. *)
Example surrogate_message_end_to_end :
  let w := run_iteration (U:=ascii_tables)
             (Json (TgEnvelope (Some true) (Some [surrogate_private; learn_private])))
             (λ _, 0) empty_world in
  files w !! str "chatlogs/User_log.txt" = Some [] ∧
  files w !! str "dict/7_words.dat" = None ∧
  trace w = [EvGetUpdates 1 100 30; EvSleep 2] ∧
  offset w = 3%Z.
Proof. vm_compute. repeat split. Qed.

(** ** The table of [longest_common_substring] *)

Lemma dp_get_set t i j v a b :
  (∃ r, t !! i = Some r ∧ j < length r) →
  dp_get (dp_set t i j v) a b = if decide (a = i ∧ b = j) then v else dp_get t a b.
Proof.
  intros (r & Hr & Hj). unfold dp_get, dp_set.
  rewrite list_lookup_alter.
  destruct (decide (i = a)) as [->|Hia].
  - rewrite Hr. simpl. destruct (decide (b = j)) as [->|Hbj].
    + rewrite list_lookup_insert_eq by done. simpl.
      rewrite decide_True; done.
    + rewrite list_lookup_insert_ne by done.
      rewrite decide_False; [done|]. intros [_ ?]. done.
  - rewrite decide_False; [done|]. intros [? _]. done.
Qed.

Lemma dp_set_shape m n t i j v :
  length t = m ∧ Forall (λ r, length r = n) t →
  length (dp_set t i j v) = m ∧ Forall (λ r, length r = n) (dp_set t i j v).
Proof.
  intros [Hl Hr]. unfold dp_set. split.
  - by rewrite length_alter.
  - apply Forall_alter; [done|]. intros x _ Hx. by rewrite length_insert.
Qed.

Section lcs.
Variables s1 s2 : pystr.
Local Abbreviation m := (length s1).
Local Abbreviation n := (length s2).
Local Abbreviation cs := (csuf s1 s2).

Lemma csuf_S i j :
  cs (S i) (S j) =
  match s1 !! i, s2 !! j with
  | Some a, Some b => if (a =? b)%N then S (cs i j) else 0
  | _, _ => 0
  end.
Proof. done. Qed.

Lemma csuf_0_r i : cs i 0 = 0.
Proof. by destruct i. Qed.

Lemma csuf_le i j : cs i j ≤ i ∧ cs i j ≤ j.
Proof.
  revert j. induction i as [|i IH]; intros [|j]; simpl; try lia.
  destruct (s1 !! i), (s2 !! j); try lia.
  destruct (_ =? _)%N; [|lia]. specialize (IH j). lia.
Qed.

Lemma csuf_chars i j d :
  d < cs i j → ∃ c, s1 !! (i - 1 - d) = Some c ∧ s2 !! (j - 1 - d) = Some c.
Proof.
  revert j d. induction i as [|i IH]; intros [|j] d; simpl; try lia.
  destruct (s1 !! i) as [a|] eqn:Ha, (s2 !! j) as [b|] eqn:Hb; try lia.
  destruct (N.eqb_spec a b) as [->|]; [|lia].
  intros Hd. destruct d as [|d].
  - exists b. by rewrite !Nat.sub_0_r.
  - destruct (IH j d) as (c & H1 & H2); [lia|].
    pose proof (csuf_le i j). exists c.
    replace (i - 0 - S d) with (i - 1 - d) by lia.
    replace (j - 0 - S d) with (j - 1 - d) by lia. done.
Qed.

Lemma csuf_ge p q k :
  (∀ d, d < k → ∃ c, s1 !! (p + d) = Some c ∧ s2 !! (q + d) = Some c) →
  k ≤ cs (p + k) (q + k).
Proof.
  induction k as [|k IH]; intros H; [lia|].
  rewrite !Nat.add_succ_r, csuf_S.
  destruct (H k) as (c & -> & ->); [lia|].
  rewrite N.eqb_refl. apply le_n_S, IH. intros d Hd. apply H. lia.
Qed.

Lemma lcs_inv_init : lcs_inv s1 s2 0 n (lcs_init m n).
Proof.
  split; simpl.
  - by rewrite length_replicate.
  - apply Forall_replicate. by rewrite length_replicate.
  - intros a b Ha Hb. unfold dp_get.
    rewrite lookup_replicate_2 by lia. simpl.
    rewrite lookup_replicate_2 by lia. simpl.
    case_decide as H; [|done]. destruct H as [?|[-> _]]; [lia|done].
  - intros a b _ _ [?|[-> _]]; [lia|done].
  - by left.
Qed.

Lemma lcs_inv_next_row i st : lcs_inv s1 s2 i n st → lcs_inv s1 s2 (S i) 0 st.
Proof.
  intros [H1 H2 H3 H4 H5]. split; try done.
  - intros a b Ha Hb. rewrite H3 by done.
    destruct (decide (cell_done i n a b)) as [Hd|Hd];
      destruct (decide (cell_done (S i) 0 a b)) as [Hd'|Hd']; try done.
    + exfalso. apply Hd'. unfold cell_done in *. lia.
    + destruct Hd' as [?|[-> ?]].
      * exfalso. apply Hd. unfold cell_done. lia.
      * replace b with 0 by lia. by rewrite csuf_0_r.
  - intros a b Ha Hb [?|[-> ?]].
    + apply H4; try done. unfold cell_done. lia.
    + replace b with 0 by lia. rewrite csuf_0_r. lia.
Qed.

Lemma lcs_inv_cell i k st :
  1 ≤ i ≤ m → k < n → lcs_inv s1 s2 i k st → lcs_inv s1 s2 i (S k) (lcs_cell s1 s2 i (S k) st).
Proof.
  intros Hi Hk [H1 H2 H3 H4 H5].
  destruct i as [|i]; [lia|].
  assert (Hcs : cs (S i) (S k) =
    match s1 !! i, s2 !! k with
    | Some a, Some b => if (a =? b)%N then S (cs i k) else 0
    | _, _ => 0 end) by done.
  unfold lcs_cell. rewrite !Nat.sub_succ, !Nat.sub_0_r.
  destruct (lookup_lt_is_Some_2 s1 i) as [a Ha]; [lia|].
  destruct (lookup_lt_is_Some_2 s2 k) as [b Hb]; [lia|].
  rewrite Ha, Hb in Hcs |- *.
  assert (Hold : dp_get (dp st) (S i) (S k) = 0).
  { rewrite H3 by lia. rewrite decide_False; [done|]. unfold cell_done. lia. }
  assert (Hdone : ∀ a' b', cell_done (S i) (S k) a' b' ↔
             cell_done (S i) k a' b' ∨ (a' = S i ∧ b' = S k)).
  { unfold cell_done. lia. }
  destruct (a =? b)%N.
  - assert (Hv : dp_get (dp st) i k + 1 = cs (S i) (S k)).
    { rewrite H3 by lia. rewrite decide_True by (unfold cell_done; lia). lia. }
    rewrite Hv.
    assert (Hrow : ∃ r, dp st !! S i = Some r ∧ S k < length r).
    { destruct (lookup_lt_is_Some_2 (dp st) (S i)) as [r Hr]; [lia|].
      exists r. split; [done|].
      rewrite Forall_lookup in H2. rewrite (H2 _ _ Hr). lia. }
    assert (Hdp : ∀ a' b', a' ≤ m → b' ≤ n →
      dp_get (dp_set (dp st) (S i) (S k) (cs (S i) (S k))) a' b' =
      if decide (cell_done (S i) (S k) a' b') then cs a' b' else 0).
    { intros a' b' Ha' Hb'. rewrite dp_get_set by done.
      destruct (decide (a' = S i ∧ b' = S k)) as [[-> ->]|Hne].
      - rewrite decide_True; [done|]. apply Hdone. by right.
      - rewrite H3 by done.
        destruct (decide (cell_done (S i) k a' b')) as [Hd|Hd].
        + rewrite decide_True; [done|]. apply Hdone. by left.
        + rewrite decide_False; [done|]. rewrite Hdone. tauto. }
    destruct (dp_set_shape (m + 1) (n + 1) (dp st) (S i) (S k) (cs (S i) (S k)))
      as [Hs1 Hs2]; [done|].
    destruct (Nat.ltb_spec (max_len st) (cs (S i) (S k))) as [Hlt|Hge];
      split; cbn [dp max_len end_pos]; try done.
    + intros a' b' Ha' Hb' Hd. apply Hdone in Hd as [Hd|[-> ->]]; [|lia].
      specialize (H4 a' b' Ha' Hb' Hd). lia.
    + right. exists (S k). split; [lia|]. split; [lia|done].
    + intros a' b' Ha' Hb' Hd. apply Hdone in Hd as [Hd|[-> ->]]; [|lia].
      by apply H4.
  - split; try done.
    + intros a' b' Ha' Hb'.
      destruct (decide (a' = S i ∧ b' = S k)) as [[-> ->]|Hne].
      * rewrite Hold, Hcs. by case_decide.
      * rewrite H3 by done.
        destruct (decide (cell_done (S i) k a' b')) as [Hd|Hd].
        -- rewrite decide_True; [done|]. apply Hdone. by left.
        -- rewrite decide_False; [done|]. rewrite Hdone. tauto.
    + intros a' b' Ha' Hb' Hd. apply Hdone in Hd as [Hd|[-> ->]].
      * by apply H4.
      * rewrite Hcs. lia.
Qed.

Lemma lcs_inv_row_prefix i st k :
  1 ≤ i ≤ m → k ≤ n → lcs_inv s1 s2 i 0 st →
  lcs_inv s1 s2 i k (foldl (λ st j, lcs_cell s1 s2 i j st) st (seq 1 k)).
Proof.
  intros Hi Hk Hst. induction k as [|k IH]; [done|].
  rewrite seq_S, foldl_snoc. simpl. apply lcs_inv_cell; [done|lia|].
  apply IH. lia.
Qed.

Lemma lcs_inv_row i st :
  i < m → lcs_inv s1 s2 i n st → lcs_inv s1 s2 (S i) n (lcs_row s1 s2 (S i) st).
Proof.
  intros Hi Hst. unfold lcs_row, py_range.
  replace (n + 1 - 1) with n by lia.
  apply lcs_inv_row_prefix; [lia|lia|]. by apply lcs_inv_next_row.
Qed.

Lemma lcs_inv_rows i :
  i ≤ m → lcs_inv s1 s2 i n (foldl (λ st i, lcs_row s1 s2 i st) (lcs_init m n) (seq 1 i)).
Proof.
  induction i as [|i IH]; intros Hi; [apply lcs_inv_init|].
  rewrite seq_S, foldl_snoc. simpl. apply lcs_inv_row; [lia|]. apply IH. lia.
Qed.

Lemma lcs_table_inv : lcs_inv s1 s2 m n (lcs_table s1 s2).
Proof.
  unfold lcs_table, py_range. replace (m + 1 - 1) with m by lia.
  by apply lcs_inv_rows.
Qed.
End lcs.

Lemma substring_of_slice (s : pystr) a k : substring_of (take k (drop a s)) s.
Proof.
  exists (take a s), (drop k (drop a s)). by rewrite !take_drop.
Qed.

Lemma substring_of_lookup (t s : pystr) :
  substring_of t s →
  ∃ p, p + length t ≤ length s ∧ ∀ d, d < length t → s !! (p + d) = t !! d.
Proof.
  intros (l & r & ->). exists (length l). split.
  - rewrite !length_app. lia.
  - intros d Hd. rewrite lookup_app_r by lia.
    replace (length l + d - length l) with d by lia.
    by rewrite lookup_app_l.
Qed.

Lemma substring_of_elem (c : char) (s : pystr) : substring_of [c] s ↔ In c s.
Proof.
  rewrite <- list_elem_of_In. split.
  - intros (l & r & ->). set_solver.
  - intros (l & r & ->)%list_elem_of_split. by exists l, r.
Qed.

Lemma lcs_length s1 s2 :
  length (longest_common_substring s1 s2) = max_len (lcs_table s1 s2).
Proof.
  unfold longest_common_substring, py_slice.
  destruct (lcs_table_inv s1 s2) as [_ _ _ _ He].
  destruct (Nat.ltb_spec 0 (max_len (lcs_table s1 s2))) as [Hk|Hk]; [|simpl; lia].
  destruct He as [?|(b & He & Hb & Hc)]; [lia|].
  pose proof (csuf_le s1 s2 (end_pos (lcs_table s1 s2)) b).
  rewrite length_take, length_drop. lia.
Qed.

Lemma lcs_is_common s1 s2 :
  substring_of (longest_common_substring s1 s2) s1 ∧
  substring_of (longest_common_substring s1 s2) s2.
Proof.
  unfold longest_common_substring, py_slice.
  destruct (lcs_table_inv s1 s2) as [_ _ _ _ He].
  destruct (Nat.ltb_spec 0 (max_len (lcs_table s1 s2))) as [Hk|Hk].
  2:{ split; [by exists [], s1|by exists [], s2]. }
  destruct He as [?|(b & He & Hb & Hc)]; [lia|].
  set (e := end_pos (lcs_table s1 s2)) in *.
  set (k := max_len (lcs_table s1 s2)) in *.
  pose proof (csuf_le s1 s2 e b) as [Hle1 Hle2].
  split; [apply substring_of_slice|].
  replace (take (e - (e - k)) (drop (e - k) s1)) with (take k (drop (b - k) s2)).
  { apply substring_of_slice. }
  replace (e - (e - k)) with k by lia.
  apply list_eq. intros d.
  destruct (decide (d < k)) as [Hd|Hd].
  - rewrite !lookup_take_lt, !lookup_drop by done.
    destruct (csuf_chars s1 s2 e b (k - 1 - d)) as (c & H1 & H2); [lia|].
    replace (e - 1 - (k - 1 - d)) with (e - k + d) in H1 by lia.
    replace (b - 1 - (k - 1 - d)) with (b - k + d) in H2 by lia.
    by rewrite H1, H2.
  - rewrite !lookup_take_ge by lia. done.
Qed.

Lemma lcs_is_longest s1 s2 (t : pystr) :
  substring_of t s1 → substring_of t s2 →
  length t ≤ length (longest_common_substring s1 s2).
Proof.
  intros (p & Hp & H1)%substring_of_lookup (q & Hq & H2)%substring_of_lookup.
  rewrite lcs_length.
  destruct (lcs_table_inv s1 s2) as [_ _ _ Hm _].
  etrans; [apply (csuf_ge s1 s2 p q (length t))|].
  - intros d Hd. destruct (lookup_lt_is_Some_2 t d Hd) as [c Hc].
    exists c. by rewrite H1, H2.
  - apply Hm; [lia|lia|]. unfold cell_done. lia.
Qed.

(** C1. For all strings a and b, longest_common_substring a b is a contiguous
    substring of both, no common contiguous substring is longer, its length
    is 0 exactly when a and b share no character, and swapping the arguments
    does not change the length. *)
Theorem longest_common_substring_spec (a b : pystr) :
  substring_of (longest_common_substring a b) a ∧
  substring_of (longest_common_substring a b) b ∧
  (∀ t, substring_of t a → substring_of t b →
        length t ≤ length (longest_common_substring a b)) ∧
  (length (longest_common_substring a b) = 0 ↔ ¬ ∃ c, In c a ∧ In c b) ∧
  length (longest_common_substring a b) = length (longest_common_substring b a).
Proof.
  destruct (lcs_is_common a b) as [Ha Hb].
  destruct (lcs_is_common b a) as [Hb' Ha'].
  repeat split; try done.
  - by apply lcs_is_longest.
  - intros H0 (c & Hca & Hcb).
    pose proof (lcs_is_longest a b [c]) as Hl.
    rewrite !substring_of_elem in Hl. specialize (Hl Hca Hcb). simpl in Hl. lia.
  - intros Hno. destruct (longest_common_substring a b) as [|c r] eqn:E; [done|].
    exfalso. apply Hno. exists c.
    destruct Ha as (l1 & r1 & ->), Hb as (l2 & r2 & ->).
    rewrite <- !list_elem_of_In. set_solver.
  - apply Nat.le_antisymm; by apply lcs_is_longest.
Qed.

(** ** Strings *)

Lemma replace_char_filter (c : char) (s : pystr) :
  py_replace [c] [] s = List.filter (λ x, negb (x =? c)%N) s.
Proof.
  unfold py_replace. induction s as [|x s IH]; [done|].
  cbn [replace_from py_startswith length Nat.sub List.filter].
  rewrite andb_true_r, (N.eqb_sym c x).
  destruct (x =? c)%N; simpl; by rewrite IH.
Qed.

Lemma filter_twice {A} (f g : A → bool) (l : list A) :
  List.filter g (List.filter f l) = List.filter (λ x, f x && g x) l.
Proof.
  induction l as [|x l IH]; [done|]. simpl.
  destruct (f x); simpl; [destruct (g x)|]; by rewrite IH.
Qed.

Lemma py_startswith_spec (p s : pystr) :
  py_startswith p s = true ↔ ∃ r, s = p ++ r.
Proof.
  revert s. induction p as [|a p IH]; intros s; simpl.
  - split; [by exists s|done].
  - destruct s as [|b s].
    + split; [done|]. by intros (r & ?).
    + rewrite andb_true_iff, N.eqb_eq, IH. split.
      * intros (-> & r & ->). by exists r.
      * intros (r & Hr). injection Hr as -> ->. eauto.
Qed.

Lemma substring_of_occurs (t s : pystr) : substring_of t s ↔ occurs_in t s = true.
Proof.
  unfold occurs_in. rewrite existsb_exists. split.
  - intros (l & r & ->). exists (length l). split.
    + apply in_seq. rewrite length_app. lia.
    + rewrite drop_app_length. apply py_startswith_spec. by exists r.
  - intros (k & _ & (r & Hr)%py_startswith_spec).
    exists (take k s), r. by rewrite <- Hr, take_drop.
Qed.

(** [replace] changes nothing in a string where [old] does not occur. *)
Lemma replace_absent (old new s : pystr) :
  ¬ substring_of old s → py_replace old new s = s.
Proof.
  unfold py_replace. induction s as [|c s IH]; intros Hno; [done|].
  cbn [replace_from].
  destruct (py_startswith old (c :: s)) eqn:E.
  - exfalso. apply py_startswith_spec in E as (r & E).
    apply Hno. exists [], r. by rewrite E.
  - f_equal. apply IH. intros (l & r & ->). apply Hno. by exists (c :: l), r.
Qed.

Lemma split_on_nonnil sep s : split_on sep s ≠ [].
Proof. destruct s as [|c s]; simpl; [done|]. by destruct (sep c), (split_on sep s). Qed.

Lemma split_on_app sep (a b : pystr) (c : char) :
  sep c = true → split_on sep (a ++ c :: b) = split_on sep a ++ split_on sep b.
Proof.
  intros Hc. induction a as [|x a IH]; simpl.
  - by rewrite Hc.
  - rewrite IH. destruct (sep x); [done|].
    pose proof (split_on_nonnil sep a). by destruct (split_on sep a).
Qed.

Lemma lstrip_spaces (s : pystr) :
  Forall (λ c, py_isspace c = true) s → py_lstrip s = [].
Proof. induction 1 as [|c s Hc _ IH]; simpl; [done|]. by rewrite Hc. Qed.

Lemma strip_spaces (s : pystr) :
  Forall (λ c, py_isspace c = true) s → py_strip s = [].
Proof. intros Hs. unfold py_strip. by rewrite lstrip_spaces. Qed.

Lemma replace_spaces (old new s : pystr) (a : char) (old' : pystr) :
  old = a :: old' → py_isspace a = false →
  Forall (λ c, py_isspace c = true) s → py_replace old new s = s.
Proof.
  intros -> Ha. unfold py_replace. induction 1 as [|c s Hc _ IH]; [done|].
  cbn [replace_from py_startswith].
  destruct (N.eqb_spec a c) as [->|_]; [congruence|]. simpl. by rewrite IH.
Qed.

Lemma file_phrases_app (content text : pystr) :
  closed_text content →
  file_phrases (content ++ text) = file_phrases content ++ file_phrases text.
Proof.
  unfold file_phrases. intros [->|(c & ->)]; [done|].
  rewrite <- app_assoc. simpl.
  rewrite !split_on_app by done.
  rewrite !map_app, !List.filter_app. simpl. by rewrite app_nil_r.
Qed.

Lemma lstrip_clean (s : pystr) : starts_clean (py_lstrip s).
Proof.
  induction s as [|c s IH]; simpl; [done|].
  by destruct (py_isspace c) eqn:E.
Qed.

Lemma lstrip_id (s : pystr) : starts_clean s → py_lstrip s = s.
Proof. destruct s as [|c s]; simpl; [done|]. by intros ->. Qed.

Lemma lstrip_suffix (s : pystr) : ∃ l, s = l ++ py_lstrip s.
Proof.
  induction s as [|c s (l & IH)]; simpl; [by exists []|].
  destruct (py_isspace c); [|by exists []].
  exists (c :: l). simpl. by rewrite <- IH.
Qed.

(** Trimming a trimmed string changes nothing. *)
Lemma strip_idem (s : pystr) : py_strip (py_strip s) = py_strip s.
Proof.
  unfold py_strip at 2 3. set (u := py_lstrip s).
  assert (Hu : starts_clean u) by apply lstrip_clean.
  set (t := py_rstrip u).
  assert (Hrev : rev t = py_lstrip (rev u)).
  { unfold t, py_rstrip. by rewrite rev_involutive. }
  assert (Hlast : starts_clean (rev t)).
  { rewrite Hrev. apply lstrip_clean. }
  assert (Hpre : ∃ r, u = t ++ r).
  { destruct (lstrip_suffix (rev u)) as (l & Hl). exists (rev l).
    rewrite <- (rev_involutive u), Hl, rev_app_distr. by rewrite <- Hrev, rev_involutive. }
  assert (Ht : starts_clean t).
  { destruct Hpre as (r & Hr). destruct t as [|c t']; [done|].
    rewrite Hr in Hu. exact Hu. }
  unfold py_strip. rewrite (lstrip_id t Ht). unfold py_rstrip.
  by rewrite (lstrip_id _ Hlast), rev_involutive.
Qed.

Lemma split_on_none sep (s : pystr) :
  Forall (λ c, sep c = false) s → split_on sep s = [s].
Proof. induction 1 as [|c s Hc _ IH]; simpl; [done|]. by rewrite Hc, IH. Qed.

(** One line without line breaks, already trimmed, reads back as itself. *)
Lemma file_phrases_line (s : pystr) :
  s ≠ [] → Forall (λ c, is_newline c = false) s → py_strip s = s →
  file_phrases (s ++ [10%N]) = [s].
Proof.
  intros Hs Hnl Hstrip. unfold file_phrases.
  rewrite split_on_app by done. rewrite split_on_none by done.
  simpl. rewrite Hstrip. by destruct s.
Qed.

(** ** The matching loops *)

Section matcher.
Context {U : Unicode}.

Lemma scan_phrase_words_spec phrase msg_word phrase_words matched :
  scan_phrase_words phrase msg_word phrase_words matched =
  if existsb (word_hit msg_word) phrase_words then matched ++ [phrase] else matched.
Proof.
  induction phrase_words as [|pw pws IH]; simpl; [done|].
  by destruct (word_hit msg_word pw).
Qed.

Lemma word_hit_true msg_word phr_word :
  word_hit msg_word phr_word = true ↔
  4 * length phr_word ≤ 5 * length (longest_common_substring msg_word phr_word).
Proof. unfold word_hit. apply Nat.leb_le. Qed.

Lemma phrase_hits_cons msg_word message_words phrase_words :
  phrase_hits (msg_word :: message_words) phrase_words ↔
  existsb (word_hit msg_word) phrase_words = true ∨
  phrase_hits message_words phrase_words.
Proof.
  unfold phrase_hits. rewrite existsb_exists. split.
  - intros (mw & pw & [<-|Hm] & Hp & Hh).
    + left. exists pw. by rewrite word_hit_true.
    + right. by exists mw, pw.
  - intros [(pw & Hp & Hh%word_hit_true)|(mw & pw & Hm & Hp & Hh)].
    + exists msg_word, pw. split; [by left|done].
    + exists mw, pw. split; [by right|done].
Qed.

Lemma scan_message_words_spec phrase message_words phrase_words matched :
  ∃ extra,
    scan_message_words phrase message_words phrase_words matched = matched ++ extra ∧
    (∀ x, In x extra → x = phrase) ∧
    (In phrase (matched ++ extra) ↔
     In phrase matched ∨ phrase_hits message_words phrase_words).
Proof.
  induction message_words as [|mw mws IH]; cbn [scan_message_words].
  - exists []. rewrite app_nil_r. split; [done|]. split; [done|].
    split; [by left|]. intros [?|(? & ? & [] & _)]. done.
  - rewrite scan_phrase_words_spec.
    destruct (existsb (word_hit mw) phrase_words) eqn:E.
    + rewrite bool_decide_true by (apply list_elem_of_In, in_or_app; right; by left).
      exists [phrase]. split; [done|]. split.
      * by intros x [<-|[]].
      * rewrite phrase_hits_cons, E.
        split; [by right; left|]. intros _. apply in_or_app. right. by left.
    + case_bool_decide as Hin.
      * exists []. rewrite app_nil_r. apply list_elem_of_In in Hin.
        split; [done|]. split; [done|]. split; [by left|done].
      * destruct IH as (extra & -> & Hx & Hiff). exists extra.
        split; [done|]. split; [done|]. rewrite Hiff, phrase_hits_cons, E.
        split; [intros [?|?]; auto|]. intros [?|[?|?]]; auto. done.
Qed.

Lemma match_from_spec message_words phrases acc :
  ∃ extra,
    foldl (λ matched phrase,
             scan_message_words phrase message_words (words phrase) matched)
          acc phrases = acc ++ extra ∧
    ∀ x, In x (acc ++ extra) ↔
         In x acc ∨ (In x phrases ∧ phrase_hits message_words (words x)).
Proof.
  revert acc. induction phrases as [|p ps IH]; intros acc; simpl.
  - exists []. rewrite app_nil_r. split; [done|]. intros x. tauto.
  - destruct (scan_message_words_spec p message_words (words p) acc)
      as (e1 & -> & He1 & Hp).
    destruct (IH (acc ++ e1)) as (e2 & -> & He2).
    exists (e1 ++ e2). rewrite app_assoc. split; [done|].
    intros x. rewrite He2, in_app_iff. split.
    + intros [[?|Hx]|[? ?]]; [by left| |by right; split; [right|]].
      rewrite (He1 x Hx).
      destruct Hp as [Hp _].
      destruct Hp as [?|?]; [apply in_or_app; right; by rewrite <- (He1 x Hx)| |].
      * by left.
      * right. split; [by left|done].
    + intros [?|[[<-|?] Hh]]; [by left; left| |by right].
      left. apply in_app_iff, Hp. by right.
Qed.

Lemma match_phrases_spec message_words phrases x :
  In x (match_phrases message_words phrases) ↔
  In x phrases ∧ phrase_hits message_words (words x).
Proof.
  unfold match_phrases.
  destruct (match_from_spec message_words phrases []) as (extra & -> & Hx).
  rewrite Hx. simpl. tauto.
Qed.

Lemma match_phrases_app message_words phrases more :
  ∃ extra, match_phrases message_words (phrases ++ more) =
           match_phrases message_words phrases ++ extra.
Proof.
  unfold match_phrases. rewrite foldl_app.
  destruct (match_from_spec message_words more
              (foldl (λ matched phrase,
                 scan_message_words phrase message_words (words phrase) matched)
                 [] phrases)) as (extra & -> & _).
  by exists extra.
Qed.

Lemma random_choice_some {A} rnd (l : list A) :
  l ≠ [] → ∃ x, random_choice rnd l = Some x ∧ In x l.
Proof.
  intros Hl. unfold random_choice.
  destruct (lookup_lt_is_Some_2 l (rnd mod length l)) as [x Hx].
  - apply Nat.mod_upper_bound. by destruct l.
  - exists x. split; [done|]. apply list_elem_of_In. by eapply list_elem_of_lookup_2.
Qed.

(** [find_similar_phrases] answers with a draw from the qualifying set, and
    with nothing exactly when that set is empty. *)
Lemma find_similar_phrases_spec message chat_number rnd w :
  find_similar_phrases message chat_number rnd w =
  match qualifying message chat_number w with
  | [] => None
  | matched => random_choice rnd matched
  end.
Proof.
  unfold find_similar_phrases, qualifying, load_phrases.
  destruct (os_path_exists _ w); [|reflexivity]. simpl.
  destruct (read_file _ w) as [content|]; [|reflexivity].
  destruct (file_phrases content) as [|p ps]; [reflexivity|].
  by destruct (match_phrases _ _).
Qed.

Lemma find_similar_phrases_none message chat_number rnd w :
  find_similar_phrases message chat_number rnd w = None ↔
  qualifying message chat_number w = [].
Proof.
  rewrite find_similar_phrases_spec.
  destruct (qualifying message chat_number w) as [|p ps] eqn:E; [done|].
  destruct (random_choice_some rnd (p :: ps)) as (x & -> & _); done.
Qed.

End matcher.

(** ** Files *)

Lemma utf8_encodable_app (s t : pystr) :
  utf8_encodable (s ++ t) = utf8_encodable s && utf8_encodable t.
Proof. apply forallb_app. Qed.

Lemma utf8_encodable_line (s : pystr) :
  utf8_encodable (s ++ [10%N]) = utf8_encodable s.
Proof. rewrite utf8_encodable_app. apply andb_true_r. Qed.

Lemma utf8_encodable_sub (s t : pystr) :
  (∀ c, In c s → In c t) → utf8_encodable t = true → utf8_encodable s = true.
Proof. unfold utf8_encodable. rewrite !forallb_forall. auto. Qed.

Lemma path_error_cases (p : pystr) :
  path_error p = None ∨ path_error p = Some UnicodeEncodeError
  ∨ path_error p = Some ValueError.
Proof.
  unfold path_error. destruct (negb _); [by right; left|].
  destruct (existsb _ _); [by right; right|by left].
Qed.

(** [open] and [write] under [except IOError]: the three ways it can go. *)
Lemma guarded_append_cases (p text : pystr) (w : world) :
  (can_write w p = false ∧
   try_except (append_file p text) is_ioerror (ret tt) w =
   (match path_error p with Some e => Raise e | None => Ret tt end, w)) ∨
  (can_write w p = true ∧ utf8_encodable text = true ∧
   try_except (append_file p text) is_ioerror (ret tt) w =
   (Ret tt, with_files (<[p := default [] (files w !! p) ++ text]> (files w)) w)) ∨
  (can_write w p = true ∧ utf8_encodable text = false ∧
   try_except (append_file p text) is_ioerror (ret tt) w =
   (Raise UnicodeEncodeError,
    with_files (<[p := default [] (files w !! p)]> (files w)) w)).
Proof.
  unfold try_except, append_file.
  destruct (can_write w p); [destruct (utf8_encodable text)|].
  - right. by left.
  - right. by right.
  - left. split; [done|].
    by destruct (path_error_cases p) as [->|[->| ->]].
Qed.

Lemma guarded_append_world (p text : pystr) (w : world) :
  appended_to p w (try_except (append_file p text) is_ioerror (ret tt) w).2.
Proof.
  destruct (guarded_append_cases p text w) as [[_ ->]|[(_ & _ & ->)|(_ & _ & ->)]].
  - by left.
  - right. by eexists.
  - right. exists []. by rewrite app_nil_r.
Qed.

Lemma appended_to_frame (p : pystr) (w w' : world) (path : pystr) :
  appended_to p w w' → path ≠ p → files w' !! path = files w !! path.
Proof.
  intros [->|(added & ->)] Hp; [done|]. simpl. by rewrite lookup_insert_ne.
Qed.

Lemma appended_to_keeps (p : pystr) (w w' : world) (path content : pystr) :
  appended_to p w w' → files w !! path = Some content →
  ∃ added, files w' !! path = Some (content ++ added).
Proof.
  intros [->|(added & ->)] Hp; [exists []; by rewrite app_nil_r|]. simpl.
  destruct (decide (path = p)) as [->|Hne].
  - rewrite lookup_insert_eq, Hp. by eexists.
  - rewrite lookup_insert_ne by done. exists []. by rewrite app_nil_r.
Qed.

Lemma appended_to_env (p : pystr) (w w' : world) :
  appended_to p w w' →
  trace w' = trace w ∧ offset w' = offset w ∧ can_read w' = can_read w ∧
  can_write w' = can_write w ∧ can_remove w' = can_remove w ∧
  proc_entries w' = proc_entries w ∧ getpid w' = getpid w.
Proof. by intros [->|(added & ->)]. Qed.

(** ** The phrase store *)

Lemma corpus_file_exists chat_number w :
  os_path_exists (corpus_file chat_number) w =
  match files w !! corpus_file chat_number with Some _ => true | None => false end.
Proof. reflexivity. Qed.

Lemma learn_phrase_guarded phrase chat_number w :
  stored_phrase phrase ≠ [] →
  learn_phrase phrase chat_number w =
  try_except (append_file (corpus_file chat_number) (stored_phrase phrase ++ [10%N]))
    is_ioerror (ret tt) w.
Proof.
  intros Hs. unfold learn_phrase. fold (stored_phrase phrase).
  by destruct (stored_phrase phrase).
Qed.

Lemma learn_phrase_empty phrase chat_number w :
  stored_phrase phrase = [] → learn_phrase phrase chat_number w = (Ret tt, w).
Proof. unfold learn_phrase, stored_phrase. by intros ->. Qed.

Lemma learn_phrase_world phrase chat_number w :
  appended_to (corpus_file chat_number) w (learn_phrase phrase chat_number w).2.
Proof.
  destruct (decide (stored_phrase phrase = [])) as [E|E].
  { rewrite learn_phrase_empty by done. by left. }
  rewrite learn_phrase_guarded by done. apply guarded_append_world.
Qed.

Lemma learn_phrase_denied phrase chat_number w :
  can_write w (corpus_file chat_number) = false →
  (learn_phrase phrase chat_number w).2 = w.
Proof.
  intros Hw. destruct (decide (stored_phrase phrase = [])) as [E|E].
  { by rewrite learn_phrase_empty. }
  rewrite learn_phrase_guarded by done.
  destruct (guarded_append_cases (corpus_file chat_number)
              (stored_phrase phrase ++ [10%N]) w)
    as [[_ ->]|[(? & _)|(? & _)]]; [done|congruence..].
Qed.

Lemma learn_phrase_written phrase chat_number w :
  stored_phrase phrase ≠ [] →
  can_write w (corpus_file chat_number) = true →
  utf8_encodable (stored_phrase phrase) = true →
  learn_phrase phrase chat_number w =
  (Ret tt,
   with_files (<[corpus_file chat_number :=
                   default [] (files w !! corpus_file chat_number)
                   ++ stored_phrase phrase ++ [10%N]]> (files w)) w).
Proof.
  intros Hs Hw He. rewrite learn_phrase_guarded by done.
  destruct (guarded_append_cases (corpus_file chat_number)
              (stored_phrase phrase ++ [10%N]) w)
    as [[? _]|[(_ & _ & ->)|(_ & Hn & _)]]; [congruence|done|].
  rewrite utf8_encodable_line in Hn. congruence.
Qed.

(** A phrase that UTF-8 cannot encode is not stored: the corpus file, by
    then opened and so created, keeps its content, and the error leaves
    [learn_phrase]. *)
Lemma learn_phrase_unencodable phrase chat_number w :
  stored_phrase phrase ≠ [] →
  can_write w (corpus_file chat_number) = true →
  utf8_encodable (stored_phrase phrase) = false →
  learn_phrase phrase chat_number w =
  (Raise UnicodeEncodeError,
   with_files (<[corpus_file chat_number :=
                   default [] (files w !! corpus_file chat_number)]> (files w)) w).
Proof.
  intros Hs Hw He. rewrite learn_phrase_guarded by done.
  destruct (guarded_append_cases (corpus_file chat_number)
              (stored_phrase phrase ++ [10%N]) w)
    as [[? _]|[(_ & Hn & _)|(_ & _ & ->)]]; [congruence| |done].
  rewrite utf8_encodable_line in Hn. congruence.
Qed.

Lemma learn_phrase_cases phrase chat_number w :
  (learn_phrase phrase chat_number w).2 = w ∨
  (stored_phrase phrase ≠ [] ∧ can_write w (corpus_file chat_number) = true ∧
   (utf8_encodable (stored_phrase phrase) = true ∨
    (learn_phrase phrase chat_number w).2 =
    with_files (<[corpus_file chat_number :=
                    default [] (files w !! corpus_file chat_number)]> (files w)) w)).
Proof.
  destruct (decide (stored_phrase phrase = [])) as [E|E].
  { left. by rewrite learn_phrase_empty. }
  destruct (can_write w (corpus_file chat_number)) eqn:Hw.
  - right. split; [done|]. split; [done|].
    destruct (utf8_encodable (stored_phrase phrase)) eqn:He; [by left|right].
    by rewrite learn_phrase_unencodable.
  - left. by apply learn_phrase_denied.
Qed.

(** The corpus stays closed under [learn_phrase]. *)
Lemma learn_phrase_closed phrase chat_number w :
  corpus_closed chat_number w →
  corpus_closed chat_number (learn_phrase phrase chat_number w).2.
Proof.
  intros Hc.
  destruct (learn_phrase_cases phrase chat_number w) as [->|(Hs & Hw & [He| ->])];
    [done| |].
  - rewrite learn_phrase_written by done. unfold corpus_closed. simpl.
    rewrite lookup_insert_eq. right.
    exists (default [] (files w !! corpus_file chat_number) ++ stored_phrase phrase).
    by rewrite <- app_assoc.
  - unfold corpus_closed in *. simpl. rewrite lookup_insert_eq.
    destruct (files w !! corpus_file chat_number); [done|by left].
Qed.

(** After [learn_phrase] the chat's phrases are the former ones followed by
    the lines just written. *)
Lemma load_phrases_learn phrase chat_number w :
  corpus_closed chat_number w →
  stored_phrase phrase ≠ [] →
  utf8_encodable (stored_phrase phrase) = true →
  can_write w (corpus_file chat_number) = true →
  can_read w (corpus_file chat_number) = true →
  load_phrases chat_number (learn_phrase phrase chat_number w).2 =
  load_phrases chat_number w ++ file_phrases (stored_phrase phrase ++ [10%N]).
Proof.
  intros Hc Hs He Hw Hr. rewrite learn_phrase_written by done.
  unfold load_phrases, read_file. rewrite !corpus_file_exists. simpl.
  rewrite lookup_insert_eq, Hr. unfold corpus_closed in Hc.
  destruct (files w !! corpus_file chat_number) as [content|]; simpl.
  - by apply file_phrases_app.
  - done.
Qed.

Lemma load_phrases_grows phrase chat_number w :
  corpus_closed chat_number w →
  ∃ more, load_phrases chat_number (learn_phrase phrase chat_number w).2 =
          load_phrases chat_number w ++ more.
Proof.
  intros Hc.
  destruct (learn_phrase_cases phrase chat_number w) as [->|(Hs & Hw & [He| ->])].
  - exists []. by rewrite app_nil_r.
  - destruct (can_read w (corpus_file chat_number)) eqn:Hr.
    { eexists. by apply load_phrases_learn. }
    rewrite learn_phrase_written by done. exists [].
    unfold load_phrases, read_file. simpl. rewrite Hr.
    by destruct (os_path_exists _ _), (os_path_exists _ _).
  - exists []. rewrite app_nil_r.
    unfold load_phrases, read_file. rewrite !corpus_file_exists. simpl.
    rewrite lookup_insert_eq.
    destruct (files w !! corpus_file chat_number); simpl; [done|].
    by destruct (can_read w _).
Qed.

(** ** Claims *)

Lemma substring_of_length (t s : pystr) : substring_of t s → length t ≤ length s.
Proof. intros (l & r & ->). rewrite !length_app. lia. Qed.

Lemma substring_of_refl (s : pystr) : substring_of s s.
Proof. exists [], []. by rewrite app_nil_r. Qed.

(** A word against itself: the whole word is the common run. *)
Lemma lcs_self (word : pystr) : longest_common_substring word word = word.
Proof.
  pose proof (lcs_is_longest word word word (substring_of_refl _) (substring_of_refl _)) as Hge.
  destruct (lcs_is_common word word) as [(l & r & E) _].
  apply (f_equal length) in E as Hlen. rewrite !length_app in Hlen.
  destruct l; [|simpl in Hlen; lia]. destruct r; [|simpl in Hlen; lia].
  simpl in E. by rewrite app_nil_r in E.
Qed.

Lemma words_ascii {U : Unicode} (s : pystr) :
  is_ascii s → words s = py_split (strip_punctuation (map ascii_lower s)).
Proof. intros Hs. unfold words. by rewrite py_lower_ascii. Qed.

Ltac ascii_text := unfold is_ascii; repeat (constructor; [reflexivity|]); constructor.

Lemma learn_command {U : Unicode} (arg chat_name : pystr) (chat_number : pyarg)
    (rnd : nat) (w : world) :
  process_message (str "/learn " ++ arg) chat_name chat_number rnd w =
  match learn_phrase arg chat_number w with
  | (Ret _, w') => (Ret (Some (str "Phrase learned!")), w')
  | (Raise e, w') => (Raise e, w')
  end.
Proof.
  unfold process_message.
  change (py_split1 32 (str "/learn " ++ arg)) with [str "/learn"; arg].
  cbn [nth]. rewrite py_lower_ascii by ascii_text. reflexivity.
Qed.

Lemma learn_command_world {U : Unicode} (arg chat_name : pystr)
    (chat_number : pyarg) (rnd : nat) (w : world) :
  (process_message (str "/learn " ++ arg) chat_name chat_number rnd w).2 =
  (learn_phrase arg chat_number w).2.
Proof.
  rewrite learn_command. by destruct (learn_phrase arg chat_number w) as [[[]|e] w'].
Qed.

Lemma qualifying_spec {U : Unicode} message phrase chat_number w :
  In phrase (qualifying message chat_number w) ↔
  In phrase (load_phrases chat_number w) ∧
  phrase_hits (words message) (words phrase).
Proof. apply match_phrases_spec. Qed.

(** C2. In a chat whose corpus holds the phrase "hello world", the message
    "hello" has a non-empty qualifying set and [find_similar_phrases]
    answers with a phrase: a phrase qualifies exactly when some message word
    shares with one of its words a run of at least 80% of that word's
    length, and a word shares all of itself with an equal word.  The corpus
    holds the phrase after [/learn hello world] whenever the corpus file is
    closed and can be written and read. *)
Theorem hello_world_is_found {U : Unicode} (chat_number : pyarg) (rnd : nat)
    (w : world) :
  (∀ message phrase,
     In phrase (qualifying message chat_number w) ↔
     In phrase (load_phrases chat_number w) ∧
     ∃ msg_word phr_word,
       In msg_word (words message) ∧ In phr_word (words phrase) ∧
       4 * length phr_word ≤ 5 * length (longest_common_substring msg_word phr_word)) ∧
  (∀ word, longest_common_substring word word = word) ∧
  (In (str "hello world") (load_phrases chat_number w) →
   In (str "hello world") (qualifying (str "hello") chat_number w) ∧
   ∃ phrase, find_similar_phrases (str "hello") chat_number rnd w = Some phrase ∧
             In phrase (qualifying (str "hello") chat_number w)) ∧
  (∀ chat_name rnd',
     corpus_closed chat_number w →
     can_write w (corpus_file chat_number) = true →
     can_read w (corpus_file chat_number) = true →
     In (str "hello world")
        (load_phrases chat_number
           (process_message (str "/learn hello world") chat_name chat_number rnd' w).2)).
Proof.
  split; [intros; apply qualifying_spec|]. split; [apply lcs_self|].
  assert (Hq : In (str "hello world") (load_phrases chat_number w) →
               In (str "hello world") (qualifying (str "hello") chat_number w)).
  { intros Hin. apply qualifying_spec. split; [done|].
    rewrite !words_ascii by ascii_text.
    exists (str "hello"), (str "hello"). rewrite lcs_self.
    split; [by left|]. split; [by left|]. simpl. lia. }
  split.
  - intros Hin. split; [by apply Hq|].
    rewrite find_similar_phrases_spec.
    destruct (qualifying (str "hello") chat_number w) as [|p ps] eqn:E.
    { by destruct (Hq Hin). }
    destruct (random_choice_some rnd (p :: ps)) as (x & -> & Hx); [done|].
    by exists x.
  - intros chat_name rnd' Hc Hw Hr.
    change (str "/learn hello world") with (str "/learn " ++ str "hello world").
    rewrite learn_command_world.
    rewrite load_phrases_learn; [|done|done|done|done|done].
    apply in_or_app. right. by left.
Qed.

Lemma hello_world_is_found_witness :
  (∃ phrase,
     find_similar_phrases (U:=ascii_tables) (str "hello") (PyInt 1) 0
       (learn_phrase (str "hello world") (PyInt 1) empty_world).2 = Some phrase) ∧
  In (str "hello world")
     (load_phrases (PyInt 1)
        (process_message (U:=ascii_tables) (str "/learn hello world") []
           (PyInt 1) 0 empty_world).2).
Proof.
  split.
  - destruct (hello_world_is_found (U:=ascii_tables) (PyInt 1) 0
                (learn_phrase (str "hello world") (PyInt 1) empty_world).2)
      as (_ & _ & Hfound & _).
    destruct Hfound as (_ & phrase & Hp & _); [vm_compute; by left|].
    by exists phrase.
  - destruct (hello_world_is_found (U:=ascii_tables) (PyInt 1) 0 empty_world)
      as (_ & _ & _ & Hlearn).
    apply Hlearn; [exact I|reflexivity|reflexivity].
Defined.

(** C7. Matching is monotonic in the corpus.  The qualifying set computed
    for a message over a corpus with one more phrase at its end starts with
    the qualifying set over the corpus without it; and after [learn_phrase]
    every phrase that qualified for a message in that chat still does, the
    corpus file being closed as [learn_phrase] leaves it. *)
Theorem matching_is_monotonic {U : Unicode} (message : pystr) :
  (∀ phrases phrase,
     ∃ added,
       match_phrases (words message) (phrases ++ [phrase]) =
       match_phrases (words message) phrases ++ added) ∧
  (∀ chat_number w phrase,
     corpus_closed chat_number w →
     (∃ added,
        qualifying message chat_number (learn_phrase phrase chat_number w).2 =
        qualifying message chat_number w ++ added) ∧
     ∀ q, In q (qualifying message chat_number w) →
          In q (qualifying message chat_number (learn_phrase phrase chat_number w).2)).
Proof.
  split; [intros; apply match_phrases_app|].
  intros chat_number w phrase Hc.
  destruct (load_phrases_grows phrase chat_number w Hc) as (more & Hmore).
  assert (∃ added,
    qualifying message chat_number (learn_phrase phrase chat_number w).2 =
    qualifying message chat_number w ++ added) as (added & Hadded).
  { unfold qualifying. rewrite Hmore. apply match_phrases_app. }
  split; [by exists added|].
  intros q Hq. rewrite Hadded. apply in_or_app. by left.
Qed.

Lemma matching_is_monotonic_witness :
  In (str "hello world")
     (qualifying (U:=ascii_tables) (str "hello") (PyInt 1)
        (learn_phrase (str "good night") (PyInt 1)
           (learn_phrase (str "hello world") (PyInt 1) empty_world).2).2).
Proof.
  destruct (matching_is_monotonic (U:=ascii_tables) (str "hello")) as [_ Hfile].
  destruct (Hfile (PyInt 1) (learn_phrase (str "hello world") (PyInt 1) empty_world).2
              (str "good night")) as [_ Hkeep].
  - vm_compute. right. by exists (str "hello world").
  - apply Hkeep. vm_compute. by left.
Defined.

Lemma safe_chat_id_filter chat_number :
  safe_chat_id chat_number =
  List.filter (λ c, negb (c =? 43)%N && negb (c =? 45)%N) (py_str chat_number).
Proof.
  unfold safe_chat_id. change (str "-") with [45%N]. change (str "+") with [43%N].
  by rewrite !replace_char_filter, filter_twice.
Qed.

Lemma learn_phrase_frame phrase chat_number w path :
  path ≠ corpus_file chat_number →
  files (learn_phrase phrase chat_number w).2 !! path = files w !! path.
Proof.
  intros Hp. eapply appended_to_frame; [apply learn_phrase_world|done].
Qed.

Lemma learn_phrase_file phrase chat_number w :
  stored_phrase phrase ≠ [] →
  can_write w (corpus_file chat_number) = true →
  utf8_encodable (stored_phrase phrase) = true →
  files (learn_phrase phrase chat_number w).2 !! corpus_file chat_number =
  Some (default [] (files w !! corpus_file chat_number)
        ++ stored_phrase phrase ++ [10%N]).
Proof.
  intros Hs Hw He. rewrite learn_phrase_written by done. simpl.
  by rewrite lookup_insert_eq.
Qed.

Lemma learn_phrase_kept phrase chat_number w :
  stored_phrase phrase ≠ [] →
  can_write w (corpus_file chat_number) = true →
  utf8_encodable (stored_phrase phrase) = false →
  (learn_phrase phrase chat_number w).1 = Raise UnicodeEncodeError ∧
  files (learn_phrase phrase chat_number w).2 !! corpus_file chat_number =
  Some (default [] (files w !! corpus_file chat_number)) ∧
  load_phrases chat_number (learn_phrase phrase chat_number w).2 =
  load_phrases chat_number w.
Proof.
  intros Hs Hw He. rewrite learn_phrase_unencodable by done. simpl.
  rewrite lookup_insert_eq. split; [done|]. split; [done|].
  unfold load_phrases, read_file. rewrite !corpus_file_exists. simpl.
  rewrite lookup_insert_eq.
  destruct (files w !! corpus_file chat_number); simpl; [done|].
  by destruct (can_read w _).
Qed.

(** C4, as the specification has it, fails: the phrase learned for chat
    [-100] is not stored under the allow-listed key ["-100"] but under
    ["100"], and the key ["+"] becomes the empty key, not ["unknown"]. *)
Lemma learn_key_counterexample :
  spec_chat_key (py_str (PyInt (-100))) = str "-100" ∧
  files (learn_phrase (str "hi") (PyInt (-100)) empty_world).2
    !! (str "dict/" ++ spec_chat_key (py_str (PyInt (-100))) ++ str "_words.dat")
  = None ∧
  files (learn_phrase (str "hi") (PyInt (-100)) empty_world).2
    !! (str "dict/100_words.dat") = Some (str "hi" ++ [10%N]) ∧
  spec_chat_key (str "+") = str "unknown" ∧
  safe_chat_id (PyStr (str "+")) = [].
Proof. vm_compute. repeat split. Qed.

(** C4, amended.  [learn_phrase] stores under the key made of [str] of the
    chat number with every ['+'] and every ['-'] removed and no other
    character touched; there is no sentinel, an empty key stays empty.  The
    file [dict/<key>_words.dat] is the only one [learn_phrase] changes and
    the one the matcher loads the chat's phrases from.  When that file can
    be opened, a phrase that UTF-8 encodes is appended to it with a line
    feed; one that it does not encode (a lone surrogate) is not stored, the
    file keeps its content and [UnicodeEncodeError] leaves [learn_phrase]. *)
Theorem learn_phrase_key (chat_number : pyarg) (phrase : pystr) (w : world) :
  let key :=
    List.filter (λ c, negb (c =? 43)%N && negb (c =? 45)%N) (py_str chat_number) in
  let path := str "dict/" ++ key ++ str "_words.dat" in
  safe_chat_id chat_number = key ∧
  (∀ other, other ≠ path →
     files (learn_phrase phrase chat_number w).2 !! other = files w !! other) ∧
  (stored_phrase phrase ≠ [] → can_write w path = true →
   utf8_encodable (stored_phrase phrase) = true →
     (learn_phrase phrase chat_number w).1 = Ret tt ∧
     files (learn_phrase phrase chat_number w).2 !! path =
     Some (default [] (files w !! path) ++ stored_phrase phrase ++ [10%N])) ∧
  (stored_phrase phrase ≠ [] → can_write w path = true →
   utf8_encodable (stored_phrase phrase) = false →
     (learn_phrase phrase chat_number w).1 = Raise UnicodeEncodeError ∧
     files (learn_phrase phrase chat_number w).2 !! path =
     Some (default [] (files w !! path))) ∧
  load_phrases chat_number w =
    match files w !! path with
    | Some content => if can_read w path then file_phrases content else []
    | None => []
    end.
Proof.
  intros key path.
  assert (Hpath : corpus_file chat_number = path).
  { unfold corpus_file, path, key. by rewrite safe_chat_id_filter. }
  split; [apply safe_chat_id_filter|]. rewrite <- Hpath.
  split; [intros; by apply learn_phrase_frame|].
  split.
  { intros Hs Hw He. split; [by rewrite learn_phrase_written|].
    by apply learn_phrase_file. }
  split.
  { intros Hs Hw He.
    destruct (learn_phrase_kept phrase chat_number w Hs Hw He) as (? & ? & _).
    done. }
  unfold load_phrases, read_file. rewrite corpus_file_exists.
  destruct (files w !! corpus_file chat_number); [|done].
  by destruct (can_read w _).
Qed.

Lemma learn_phrase_key_witness :
  files (learn_phrase (str "hi") (PyInt (-100)) empty_world).2
    !! (str "dict/-100_words.dat") = None ∧
  files (learn_phrase (str "hi") (PyInt (-100)) empty_world).2
    !! (str "dict/100_words.dat") = Some (str "hi" ++ [10%N]) ∧
  (learn_phrase [55296%N] (PyInt (-100)) empty_world).1 = Raise UnicodeEncodeError ∧
  files (learn_phrase [55296%N] (PyInt (-100)) empty_world).2
    !! (str "dict/100_words.dat") = Some [].
Proof.
  destruct (learn_phrase_key (PyInt (-100)) (str "hi") empty_world)
    as (_ & Hframe & Hfile & _).
  destruct (learn_phrase_key (PyInt (-100)) [55296%N] empty_world)
    as (_ & _ & _ & Hkept & _).
  split; [|split].
  - rewrite Hframe; [reflexivity|]. vm_compute. discriminate.
  - apply Hfile; [vm_compute; discriminate|reflexivity|reflexivity].
  - apply Hkept; [vm_compute; discriminate|reflexivity|reflexivity].
Defined.

(** C5, as the specification has it, fails: the argument ["/learn"] is not
    empty after trimming, yet nothing is stored; and [" say /learn now "] is
    stored as ["say  now"], not as the trimmed argument. *)
Lemma learn_verbatim_counterexample :
  py_strip (str "/learn") = str "/learn" ∧
  files (learn_phrase (str "/learn") (PyInt 1) empty_world).2 = files empty_world ∧
  py_strip (str " say /learn now ") = str "say /learn now" ∧
  files (learn_phrase (str " say /learn now ") (PyInt 1) empty_world).2
    !! (str "dict/1_words.dat") = Some (str "say  now" ++ [10%N]).
Proof. vm_compute. repeat split. Qed.

(** C5, amended.  [learn_phrase] first removes every occurrence of
    ["/learn"] from its argument and then trims it (an argument without
    ["/learn"] is only trimmed).  When the text so obtained is not empty,
    UTF-8 encodes it and the corpus file can be opened, exactly that text
    and a line feed are appended at the end of the chat's corpus file and no
    other file changes; when it is empty, as for an empty or whitespace-only
    argument, nothing changes at all.  A text that UTF-8 does not encode (a
    lone surrogate) is not stored: [UnicodeEncodeError] leaves
    [learn_phrase], and the corpus file, once opened, has the content and
    the chat the phrases it had.  A stored text without a line break is one
    new line: read back from a closed corpus file, the chat's phrases are
    the former ones followed by that text. *)
Theorem learn_phrase_appends (phrase : pystr) (chat_number : pyarg) (w : world) :
  (¬ substring_of (str "/learn") phrase → stored_phrase phrase = py_strip phrase) ∧
  (stored_phrase phrase ≠ [] → can_write w (corpus_file chat_number) = true →
   utf8_encodable (stored_phrase phrase) = true →
     (learn_phrase phrase chat_number w).1 = Ret tt ∧
     files (learn_phrase phrase chat_number w).2 !! corpus_file chat_number =
       Some (default [] (files w !! corpus_file chat_number)
             ++ stored_phrase phrase ++ [10%N]) ∧
     ∀ other, other ≠ corpus_file chat_number →
       files (learn_phrase phrase chat_number w).2 !! other = files w !! other) ∧
  (stored_phrase phrase ≠ [] → can_write w (corpus_file chat_number) = true →
   utf8_encodable (stored_phrase phrase) = false →
     (learn_phrase phrase chat_number w).1 = Raise UnicodeEncodeError ∧
     files (learn_phrase phrase chat_number w).2 !! corpus_file chat_number =
       Some (default [] (files w !! corpus_file chat_number)) ∧
     load_phrases chat_number (learn_phrase phrase chat_number w).2 =
       load_phrases chat_number w ∧
     ∀ other, other ≠ corpus_file chat_number →
       files (learn_phrase phrase chat_number w).2 !! other = files w !! other) ∧
  (stored_phrase phrase = [] → learn_phrase phrase chat_number w = (Ret tt, w)) ∧
  (Forall (λ c, py_isspace c = true) phrase →
   learn_phrase phrase chat_number w = (Ret tt, w)) ∧
  (stored_phrase phrase ≠ [] →
   utf8_encodable (stored_phrase phrase) = true →
   Forall (λ c, is_newline c = false) (stored_phrase phrase) →
   corpus_closed chat_number w →
   can_write w (corpus_file chat_number) = true →
   can_read w (corpus_file chat_number) = true →
   load_phrases chat_number (learn_phrase phrase chat_number w).2 =
   load_phrases chat_number w ++ [stored_phrase phrase]).
Proof.
  split; [|split; [|split; [|split; [|split]]]].
  - intros Hno. unfold stored_phrase. by rewrite replace_absent.
  - intros Hs Hw He. split; [by rewrite learn_phrase_written|].
    split; [by apply learn_phrase_file|].
    intros; by apply learn_phrase_frame.
  - intros Hs Hw He.
    destruct (learn_phrase_kept phrase chat_number w Hs Hw He) as (? & ? & ?).
    repeat split; try done. intros; by apply learn_phrase_frame.
  - apply learn_phrase_empty.
  - intros Hsp. apply learn_phrase_empty. unfold stored_phrase.
    rewrite (replace_spaces _ _ _ 47%N (str "learn")) by done.
    by apply strip_spaces.
  - intros Hs He Hnl Hc Hw Hr. rewrite load_phrases_learn by done.
    rewrite file_phrases_line; [done|done|done|]. apply strip_idem.
Qed.

Lemma learn_phrase_appends_witness :
  files (learn_phrase (str " cats are great ") (PyInt 1) empty_world).2
    !! (str "dict/1_words.dat") = Some (str "cats are great" ++ [10%N]) ∧
  learn_phrase (str "   ") (PyInt 1) empty_world = (Ret tt, empty_world) ∧
  learn_phrase (str "/learn") (PyInt 1) empty_world = (Ret tt, empty_world) ∧
  stored_phrase (str " cats are great ") = str "cats are great" ∧
  load_phrases (PyInt 1)
    (learn_phrase (str " cats are great ") (PyInt 1) empty_world).2
  = [str "cats are great"] ∧
  (learn_phrase (str "cats " ++ [56832%N]) (PyInt 1) empty_world).1
  = Raise UnicodeEncodeError ∧
  load_phrases (PyInt 1)
    (learn_phrase (str "cats " ++ [56832%N]) (PyInt 1) empty_world).2 = [].
Proof.
  destruct (learn_phrase_appends (str " cats are great ") (PyInt 1) empty_world)
    as (Htrim & Hfile & _ & _ & _ & Hline).
  destruct (learn_phrase_appends (str "   ") (PyInt 1) empty_world)
    as (_ & _ & _ & _ & Hblank & _).
  destruct (learn_phrase_appends (str "/learn") (PyInt 1) empty_world)
    as (_ & _ & _ & Hempty & _).
  destruct (learn_phrase_appends (str "cats " ++ [56832%N]) (PyInt 1) empty_world)
    as (_ & _ & Hkept & _).
  destruct Hkept as (Hraise & _ & Hsame & _);
    [vm_compute; discriminate|reflexivity|reflexivity|].
  split; [|split; [|split; [|split; [|split; [|split]]]]].
  - destruct Hfile as (_ & Hfile & _);
      [vm_compute; discriminate|reflexivity|reflexivity|].
    exact Hfile.
  - apply Hblank. repeat constructor.
  - apply Hempty. reflexivity.
  - rewrite Htrim; [reflexivity|].
    rewrite substring_of_occurs. vm_compute. discriminate.
  - rewrite Hline;
      [reflexivity|vm_compute; discriminate|reflexivity|repeat constructor|exact I
      |reflexivity|reflexivity].
  - exact Hraise.
  - rewrite Hsame. reflexivity.
Defined.

(** C6, as the specification has it, fails: in a chat that has learned
    ["foo"], the unknown command ["/foo"] is handed to the matcher and is
    answered with ["foo"]. *)
Lemma unknown_command_counterexample :
  py_startswith (str "/") (str "/foo") = true ∧
  py_split (str "/foo") = [str "/foo"] ∧
  (process_message (U:=ascii_tables) (str "/foo") [] (PyInt 1) 0
     (learn_phrase (str "foo") (PyInt 1) empty_world).2).1 = Ret (Some (str "foo")).
Proof. vm_compute. repeat split. Qed.

(** C6, amended.  A message that starts with ['/'] and whose command, the
    text before its first space in lower case, is none of /help, /start,
    /stop, /learn changes nothing and is handed to the similarity matcher:
    [process_message] returns what [find_similar_phrases] returns for the
    whole message, which is no reply exactly when no phrase of the chat
    qualifies. *)
Theorem unknown_command_falls_through {U : Unicode} (message chat_name : pystr)
    (chat_number : pyarg) (rnd : nat) (w : world) :
  py_startswith (str "/") message = true →
  py_lower (nth 0 (py_split1 32 message) []) ≠ str "/help" →
  py_lower (nth 0 (py_split1 32 message) []) ≠ str "/start" →
  py_lower (nth 0 (py_split1 32 message) []) ≠ str "/stop" →
  py_lower (nth 0 (py_split1 32 message) []) ≠ str "/learn" →
  process_message message chat_name chat_number rnd w =
    (Ret (find_similar_phrases message chat_number rnd w), w) ∧
  ((process_message message chat_name chat_number rnd w).1 = Ret None ↔
   qualifying message chat_number w = []).
Proof.
  intros Hslash Hhelp Hstart Hstop Hlearn.
  assert (process_message message chat_name chat_number rnd w =
          (Ret (find_similar_phrases message chat_number rnd w), w)) as ->.
  { unfold process_message. rewrite Hslash.
    by rewrite !bool_decide_false. }
  split; [done|]. rewrite <- find_similar_phrases_none. cbn [fst].
  split; [by intros [= ->]|by intros ->].
Qed.

Lemma unknown_command_falls_through_witness :
  process_message (U:=ascii_tables) (str "/foo") [] (PyInt 1) 0
    (learn_phrase (str "foo") (PyInt 1) empty_world).2 =
  (Ret (find_similar_phrases (U:=ascii_tables) (str "/foo") (PyInt 1) 0
          (learn_phrase (str "foo") (PyInt 1) empty_world).2),
   (learn_phrase (str "foo") (PyInt 1) empty_world).2).
Proof.
  apply (unknown_command_falls_through (U:=ascii_tables));
    [reflexivity|vm_compute; discriminate..].
Defined.

(** C10, as stated, fails: ["/learn"] followed by a tab is not taken for the
    learn command, and in a chat without phrases there is no reply at all. *)
Lemma learn_tab_counterexample :
  py_strip [9%N] = [] ∧
  (process_message (U:=ascii_tables) (str "/learn" ++ [9%N]) [] (PyInt 1) 0
     empty_world).1 = Ret None.
Proof. vm_compute. repeat split. Qed.

(** C10, amended.  For every message made of ["/learn"], one space and a
    remainder of whitespace only (possibly empty), [process_message] returns
    the confirmation "Phrase learned!" although [learn_phrase] stores
    nothing: the world, the corpus with it, is unchanged. *)
Theorem learn_blank_is_confirmed {U : Unicode} (rest chat_name : pystr)
    (chat_number : pyarg) (rnd : nat) (w : world) :
  Forall (λ c, py_isspace c = true) rest →
  process_message (str "/learn " ++ rest) chat_name chat_number rnd w =
    (Ret (Some (str "Phrase learned!")), w) ∧
  learn_phrase rest chat_number w = (Ret tt, w).
Proof.
  intros Hrest.
  assert (Hnone : learn_phrase rest chat_number w = (Ret tt, w)).
  { apply learn_phrase_empty. unfold stored_phrase.
    rewrite (replace_spaces _ _ _ 47%N (str "learn")) by done.
    by apply strip_spaces. }
  split; [|done]. by rewrite learn_command, Hnone.
Qed.

Lemma learn_blank_is_confirmed_witness :
  process_message (U:=ascii_tables) (str "/learn " ++ [32%N; 9%N]) [] (PyInt 1) 0
    empty_world = (Ret (Some (str "Phrase learned!")), empty_world).
Proof.
  apply (learn_blank_is_confirmed (U:=ascii_tables) [32%N; 9%N]).
  repeat constructor.
Defined.



(** ** The loop *)

Section loop.
Context {U : Unicode}.

Lemma log_event_file (text logname : pystr) (w : world) :
  log_event text logname w =
  try_except
    (append_file (log_file_name logname) (ctime w ++ str " >> " ++ text ++ [10%N]))
    is_ioerror (ret tt) w.
Proof. reflexivity. Qed.

Lemma log_event_world (text logname : pystr) (w : world) :
  appended_to (log_file_name logname) w (log_event text logname w).2.
Proof. rewrite log_event_file. apply guarded_append_world. Qed.

Lemma log_event_trace text logname w :
  trace (log_event text logname w).2 = trace w.
Proof. eapply appended_to_env, log_event_world. Qed.

Lemma learn_phrase_trace phrase chat_number w :
  trace (learn_phrase phrase chat_number w).2 = trace w.
Proof. eapply appended_to_env, learn_phrase_world. Qed.

(** What [process_message] does to the world is what [learn_phrase] does. *)
Lemma process_message_world (message chat_name : pystr) (chat_number : pyarg)
    (rnd : nat) (w : world) :
  appended_to (corpus_file chat_number) w
    (process_message message chat_name chat_number rnd w).2.
Proof.
  unfold process_message, bind, ret.
  repeat match goal with |- context [if ?b then _ else _] => destruct b end;
    try by left.
  pose proof (learn_phrase_world (nth 1 (py_split1 32 message) []) chat_number w) as H.
  by destruct (learn_phrase _ _ w) as [[[]|e] w'].
Qed.

Lemma process_message_trace message chat_name chat_number rnd w :
  trace (process_message message chat_name chat_number rnd w).2 = trace w.
Proof. eapply appended_to_env, process_message_world. Qed.

(** What [extract_message_info] does to the world is what [log_event]
    does. *)
Lemma extract_message_info_world (update : tg_update) (w : world) :
  ∃ logname, appended_to (log_file_name logname) w (extract_message_info update w).2.
Proof.
  unfold extract_message_info, bind, getitem, raise, ret.
  destruct (message update) as [msg|]; [|exists []; by left].
  destruct (m_text msg); [|exists []; by left].
  destruct (m_chat msg) as [chat|]; [|exists []; by left].
  destruct (c_id chat); [|exists []; by left].
  destruct (_ || _); [exists []; by left|].
  match goal with |- context [log_event ?t ?n w] =>
    exists n; pose proof (log_event_world t n w) as H;
    by destruct (log_event t n w) as [[[]|e] w'] end.
Qed.

Lemma extract_message_info_trace update w :
  trace (extract_message_info update w).2 = trace w.
Proof.
  destruct (extract_message_info_world update w) as (logname & H).
  eapply appended_to_env, H.
Qed.

Lemma handle_update_trace rnd update w :
  ∃ later, trace (handle_update rnd update w).2 = trace w ++ later.
Proof.
  unfold handle_update, bind.
  pose proof (extract_message_info_trace update w) as Ht.
  destruct (extract_message_info update w) as [[[info|]|e] w1]; simpl in Ht.
  - destruct info as [[[text chat_id] chat_name] chat_number].
    pose proof (process_message_trace text chat_name (PyInt chat_number) rnd w1) as Hp.
    destruct (process_message _ _ _ _ w1) as [[[[|c r]|]|e] w2]; simpl in Hp |- *.
    + exists []. by rewrite app_nil_r, Hp.
    + eexists. by rewrite Hp, Ht.
    + exists []. by rewrite app_nil_r, Hp.
    + exists []. by rewrite app_nil_r, Hp.
  - exists []. by rewrite app_nil_r.
  - exists []. by rewrite app_nil_r.
Qed.

Lemma handle_updates_trace rnd updates w :
  ∃ later, trace (handle_updates rnd updates w).2 = trace w ++ later.
Proof.
  revert rnd w. induction updates as [|u us IH]; intros rnd w; simpl.
  - exists []. by rewrite app_nil_r.
  - unfold bind. destruct (handle_update_trace (rnd 0) u w) as (l1 & H1).
    destruct (handle_update (rnd 0) u w) as [[[]|e] w1]; simpl in H1.
    + destruct (IH (λ k, rnd (S k)) w1) as (l2 & ->).
      exists (l1 ++ l2). by rewrite H1, app_assoc.
    + by exists l1.
Qed.

(** Every turn of the loop starts with a poll after the cursor. *)
Lemma run_iteration_polls resp rnd w :
  ∃ later, trace (run_iteration resp rnd w) =
           trace w ++ EvGetUpdates (offset w + 1) 100 30 :: later.
Proof.
  unfold run_iteration, run_batch.
  assert (Hg : trace (get_updates resp w).2 =
               trace w ++ [EvGetUpdates (offset w + 1) 100 30]).
  { destruct resp as [| | |[[[]|] [[|u us]|]]]; reflexivity. }
  destruct (get_updates resp w) as [[updates|] w1]; simpl in Hg.
  - destruct (handle_updates_trace rnd updates w1) as (l & Hl).
    destruct (handle_updates rnd updates w1) as [[[]|e] w2]; simpl in Hl |- *;
      rewrite Hl, Hg, <- !app_assoc; by eexists.
  - simpl. rewrite Hg, <- app_assoc. by eexists.
Qed.

End loop.

(** C9.  With a lock file whose recorded process id names an entry of
    /proc, a live process, [run] returns at once: nothing is polled and the
    world is as it was.  With a lock file whose recorded process is gone,
    [run] writes its own process id over it and enters the loop, whose
    first act is a poll. *)
Theorem run_respects_lock {U : Unicode} (script : list tick) (w : world)
    (content : pystr) :
  files w !! lock_file = Some content →
  can_read w lock_file = true →
  (proc_entries w (py_strip content) = true → run script w = Refused w) ∧
  (proc_entries w (py_strip content) = false → can_write w lock_file = true →
   ∃ w',
     run_lock w = Locked w' ∧
     files w' !! lock_file = Some (py_str_int (getpid w)) ∧
     trace w' = trace w ∧
     run script w = run_loop script w' ∧
     ∀ resp rnd rest, ∃ w'' later,
       run (Tick resp rnd :: rest) w = run_loop rest w'' ∧
       trace w'' = trace w ++ EvGetUpdates (offset w + 1) 100 30 :: later).
Proof.
  intros Hlock Hread.
  assert (Hlive : run_lock w =
    if proc_entries w (py_strip content) then AlreadyRunning
    else match write_file lock_file (py_str_int (getpid w)) w with
         | Some w' => Locked w'
         | None => CannotLock
         end).
  { unfold run_lock, read_file.
    change (os_path_exists lock_file w)
      with (match files w !! lock_file with Some _ => true | None => false end).
    rewrite Hlock, Hread. reflexivity. }
  split.
  - intros Halive. unfold run. by rewrite Hlive, Halive.
  - intros Hdead Hwrite. rewrite Hdead in Hlive.
    unfold write_file in Hlive. rewrite Hwrite in Hlive.
    eexists. split; [exact Hlive|]. split; [simpl; by rewrite lookup_insert_eq|].
    split; [done|]. unfold run. rewrite Hlive. split; [done|].
    intros resp rnd rest. cbn [run_loop].
    destruct (run_iteration_polls resp rnd
      (with_files (<[lock_file:=py_str_int (getpid w)]> (files w)) w)) as (later & Hl).
    by eexists _, later.
Qed.

Lemma run_respects_lock_witness :
  run (U:=ascii_tables) [Tick NetworkError (λ _, 0)]
    (with_files {[ lock_file := str "17" ]}
       (World ∅ (λ _, true) (λ _, true) (λ _, true)
          (λ p, bool_decide (p = str "17")) (λ _ _, true) [] 4242 0 []))
  = Refused
      (with_files {[ lock_file := str "17" ]}
         (World ∅ (λ _, true) (λ _, true) (λ _, true)
            (λ p, bool_decide (p = str "17")) (λ _ _, true) [] 4242 0 [])) ∧
  ∃ w', run_lock (with_files {[ lock_file := str "17" ]} empty_world) = Locked w' ∧
        files w' !! lock_file = Some (str "4242").
Proof.
  split.
  - by apply (run_respects_lock (U:=ascii_tables) _ _ (str "17")).
  - destruct (run_respects_lock (U:=ascii_tables) []
                (with_files {[ lock_file := str "17" ]} empty_world) (str "17"))
      as [_ Hstale]; [done|done|].
    destruct Hstale as (w' & Hl & Hf & _); [done|done|].
    by exists w'.
Defined.

(** C3.  For an update with a text-bearing message from a chat of type
    "group" or "supergroup", [extract_message_info] raises instead of
    returning the message tuple ([UnboundLocalError] on [first_name] when the
    chat has an id), before anything is logged.  Handling a batch that
    starts with such an update stops there: the turn of the loop consists of
    the poll and the doubled pause, no message is routed, nothing is sent
    and no file changes. *)
Theorem group_message_raises {U : Unicode} (update : tg_update)
    (msg : tg_message) (text : pystr) (chat : tg_chat) (w : world) :
  message update = Some msg →
  m_text msg = Some text →
  m_chat msg = Some chat →
  c_type chat = Some (str "group") ∨ c_type chat = Some (str "supergroup") →
  ∃ e,
    extract_message_info update w = (Raise e, w) ∧
    (∀ chat_id, c_id chat = Some chat_id → e = UnboundLocalError (str "first_name")) ∧
    (∀ rnd rest, handle_updates rnd (update :: rest) w = (Raise e, w)) ∧
    (∀ rnd rest,
       run_iteration (Json (TgEnvelope (Some true) (Some (update :: rest)))) rnd w =
       emit (EvSleep 2)
         (with_offset (update_id (List.last (update :: rest) update))
            (emit (EvGetUpdates (offset w + 1) 100 30) w))).
Proof.
  intros Hmsg Htext Hchat Htype.
  assert (Hraise : ∀ w0, ∃ e,
    extract_message_info update w0 = (Raise e, w0) ∧
    (∀ chat_id, c_id chat = Some chat_id → e = UnboundLocalError (str "first_name")) ∧
    e = match c_id chat with
        | Some _ => UnboundLocalError (str "first_name")
        | None => KeyError (str "id")
        end).
  { intros w0. unfold extract_message_info, bind, getitem, raise, ret.
    rewrite Hmsg, Htext, Hchat.
    destruct (c_id chat) as [chat_id|].
    - exists (UnboundLocalError (str "first_name")).
      destruct Htype as [-> | ->]; by repeat split.
    - exists (KeyError (str "id")). by repeat split. }
  destruct (Hraise w) as (e & He & Hid & Hshape). exists e.
  split; [done|]. split; [done|].
  assert (Hbatch : ∀ rnd rest w0, handle_updates rnd (update :: rest) w0 = (Raise e, w0)).
  { intros rnd rest w0. destruct (Hraise w0) as (e0 & He0 & _ & Hshape0).
    cbn [handle_updates]. unfold bind at 1. unfold handle_update, bind.
    rewrite He0. congruence. }
  split; [intros; apply Hbatch|].
  intros rnd rest. unfold run_iteration, run_batch.
  cbn [get_updates env_ok env_result]. by rewrite Hbatch.
Qed.

Lemma group_message_raises_witness :
  trace (run_iteration (U:=ascii_tables)
           (Json (TgEnvelope (Some true)
              (Some [TgUpdate 5 (Some (TgMessage (Some (str "hello"))
                        (Some (TgChat (Some (-100)%Z) (Some (str "group"))
                                 (Some (str "Friends"))))
                        (Some (TgUser (Some (str "A")) None (Some 9%Z)))))])))
           (λ _, 0) (learn_phrase (str "hello world") (PyInt (-100)) empty_world).2)
  = [EvGetUpdates 1 100 30; EvSleep 2].
Proof.
  destruct (group_message_raises (U:=ascii_tables)
    (TgUpdate 5 (Some (TgMessage (Some (str "hello"))
                   (Some (TgChat (Some (-100)%Z) (Some (str "group"))
                            (Some (str "Friends"))))
                   (Some (TgUser (Some (str "A")) None (Some 9%Z))))))
    _ _ _ (learn_phrase (str "hello world") (PyInt (-100)) empty_world).2
    eq_refl eq_refl eq_refl (or_introl eq_refl)) as (e & _ & _ & _ & Hturn).
  rewrite Hturn. reflexivity.
Defined.

(** * Further properties *)

(** ** Further properties of [longest_common_substring] *)

Lemma substring_of_full (t s : pystr) :
  substring_of t s → length s ≤ length t → t = s.
Proof.
  intros (l & r & ->). rewrite !length_app. intros Hlen.
  destruct l; [|simpl in Hlen; lia]. destruct r; [|simpl in Hlen; lia].
  by rewrite app_nil_r.
Qed.

Lemma lcs_contained (s1 s2 : pystr) :
  substring_of s2 s1 →
  longest_common_substring s1 s2 = s2 ∧ longest_common_substring s2 s1 = s2.
Proof.
  intros Hsub. split; apply substring_of_full.
  - apply lcs_is_common.
  - apply lcs_is_longest; [done|apply substring_of_refl].
  - apply lcs_is_common.
  - apply lcs_is_longest; [apply substring_of_refl|done].
Qed.

(** X1. When one word occurs inside the other as a contiguous run,
    [longest_common_substring] returns exactly that word, whichever the
    order of the arguments. *)
Theorem lcs_of_contained_word (s1 s2 : pystr) :
  substring_of s2 s1 →
  longest_common_substring s1 s2 = s2 ∧ longest_common_substring s2 s1 = s2.
Proof. apply lcs_contained. Qed.

(** X2. The common substring is never longer than either argument, and it
    is empty as soon as one argument is empty. *)
Theorem lcs_bounds (s1 s2 : pystr) :
  length (longest_common_substring s1 s2) ≤ length s1 ∧
  length (longest_common_substring s1 s2) ≤ length s2 ∧
  longest_common_substring s1 [] = [] ∧
  longest_common_substring [] s2 = [].
Proof.
  destruct (lcs_is_common s1 s2) as [H1 H2].
  split; [by apply substring_of_length|]. split; [by apply substring_of_length|].
  split.
  - destruct (lcs_is_common s1 []) as [_ H]. apply substring_of_length in H.
    destruct (longest_common_substring s1 []); [done|simpl in H; lia].
  - destruct (lcs_is_common [] s2) as [H _]. apply substring_of_length in H.
    destruct (longest_common_substring [] s2); [done|simpl in H; lia].
Qed.

Section first_longest.
Variables s1 s2 : pystr.
Local Abbreviation m := (length s1).
Local Abbreviation n := (length s2).
Local Abbreviation cs := (csuf s1 s2).

Lemma lcs_cell_result i k st :
  1 ≤ i ≤ m → k < n → lcs_inv s1 s2 i k st →
  max_len (lcs_cell s1 s2 i (S k) st) = max_len st `max` cs i (S k) ∧
  end_pos (lcs_cell s1 s2 i (S k) st) =
    if max_len st <? cs i (S k) then i else end_pos st.
Proof.
  intros Hi Hk Hinv. destruct i as [|i]; [lia|].
  unfold lcs_cell. rewrite !Nat.sub_succ, !Nat.sub_0_r, csuf_S.
  destruct (lookup_lt_is_Some_2 s1 i) as [a ->]; [lia|].
  destruct (lookup_lt_is_Some_2 s2 k) as [b ->]; [lia|].
  destruct (a =? b)%N.
  - rewrite (inv_dp _ _ _ _ _ Hinv) by lia.
    rewrite decide_True by (unfold cell_done; lia).
    replace (cs i k + 1) with (S (cs i k)) by lia.
    destruct (Nat.ltb_spec (max_len st) (S (cs i k))); simpl; split; try done; lia.
  - destruct (Nat.ltb_spec (max_len st) 0); [lia|]. split; [lia|done].
Qed.

Lemma lcs_first_cell i k st :
  1 ≤ i ≤ m → k < n → lcs_inv s1 s2 i k st → lcs_first s1 s2 i k st →
  lcs_first s1 s2 i (S k) (lcs_cell s1 s2 i (S k) st).
Proof.
  intros Hi Hk Hinv [He Hfirst]. unfold lcs_first.
  destruct (lcs_cell_result i k st Hi Hk Hinv) as [-> ->].
  pose proof (inv_max _ _ _ _ _ Hinv) as Hmax.
  destruct (Nat.ltb_spec (max_len st) (cs i (S k))) as [Hlt|Hge]; split; try done.
  - intros a b Ha Hb Hd Hpos Heq.
    destruct Hd as [?|[-> ?]]; [|done].
    specialize (Hmax a b Ha Hb). unfold cell_done in Hmax. lia.
  - intros a b Ha Hb Hd Hpos Heq.
    replace (max_len st `max` cs i (S k)) with (max_len st) in * by lia.
    destruct (decide (a = i ∧ b = S k)) as [[-> ->]|Hne]; [done|].
    apply (Hfirst a b); try done. unfold cell_done in *. lia.
Qed.

Lemma lcs_both_row_prefix i st k :
  1 ≤ i ≤ m → k ≤ n → lcs_inv s1 s2 i 0 st → lcs_first s1 s2 i 0 st →
  lcs_inv s1 s2 i k (foldl (λ st j, lcs_cell s1 s2 i j st) st (seq 1 k)) ∧
  lcs_first s1 s2 i k (foldl (λ st j, lcs_cell s1 s2 i j st) st (seq 1 k)).
Proof.
  intros Hi Hk Hinv Hf. induction k as [|k IH]; [done|].
  rewrite seq_S, foldl_snoc. simpl. destruct IH as [IH1 IH2]; [lia|]. split.
  - apply lcs_inv_cell; [done|lia|done].
  - apply lcs_first_cell; [done|lia|done|done].
Qed.

Lemma lcs_first_next_row i st :
  lcs_first s1 s2 i n st → lcs_first s1 s2 (S i) 0 st.
Proof.
  intros [He Hf]. split; [lia|]. intros a b Ha Hb Hd Hpos Heq.
  destruct Hd as [?|[-> ?]].
  - apply (Hf a b); try done. unfold cell_done. lia.
  - replace b with 0 in Heq by lia. rewrite csuf_0_r in Heq. lia.
Qed.

Lemma lcs_both_row i st :
  i < m → lcs_inv s1 s2 i n st → lcs_first s1 s2 i n st →
  lcs_inv s1 s2 (S i) n (lcs_row s1 s2 (S i) st) ∧
  lcs_first s1 s2 (S i) n (lcs_row s1 s2 (S i) st).
Proof.
  intros Hi Hinv Hf. unfold lcs_row, py_range.
  replace (n + 1 - 1) with n by lia.
  apply lcs_both_row_prefix; [lia|lia| |].
  - by apply lcs_inv_next_row.
  - by apply lcs_first_next_row.
Qed.

Lemma lcs_both_rows i :
  i ≤ m →
  lcs_inv s1 s2 i n (foldl (λ st i, lcs_row s1 s2 i st) (lcs_init m n) (seq 1 i)) ∧
  lcs_first s1 s2 i n (foldl (λ st i, lcs_row s1 s2 i st) (lcs_init m n) (seq 1 i)).
Proof.
  induction i as [|i IH]; intros Hi.
  - split; [apply lcs_inv_init|]. split; [simpl; lia|].
    intros a b _ _ _ Hpos. simpl in Hpos. lia.
  - destruct IH as [IH1 IH2]; [lia|].
    rewrite seq_S, foldl_snoc. simpl. apply lcs_both_row; [lia|done|done].
Qed.

Lemma lcs_table_first : lcs_first s1 s2 m n (lcs_table s1 s2).
Proof.
  unfold lcs_table, py_range. replace (m + 1 - 1) with m by lia.
  by apply lcs_both_rows.
Qed.

End first_longest.

(** X3. Among the longest common substrings, the one returned is the one
    that occurs first in the first argument: the result is the slice of
    [s1] at some position [start], and no slice of [s1] of the same length
    that also occurs in [s2] starts before [start]. *)
Theorem lcs_returns_first_longest (s1 s2 : pystr) :
  ∃ start,
    longest_common_substring s1 s2 =
      take (length (longest_common_substring s1 s2)) (drop start s1) ∧
    ∀ p, 0 < length (longest_common_substring s1 s2) →
         p + length (longest_common_substring s1 s2) ≤ length s1 →
         substring_of (take (length (longest_common_substring s1 s2)) (drop p s1)) s2 →
         start ≤ p.
Proof.
  rewrite lcs_length.
  destruct (lcs_table_inv s1 s2) as [_ _ _ Hmax Hend].
  destruct (lcs_table_first s1 s2) as [_ Hfirst].
  set (st := lcs_table s1 s2) in *.
  exists (end_pos st - max_len st). split.
  - unfold longest_common_substring, py_slice. fold st.
    destruct (Nat.ltb_spec 0 (max_len st)) as [Hpos|Hz].
    + destruct Hend as [?|(b & He & Hb & Hc)]; [lia|].
      pose proof (csuf_le s1 s2 (end_pos st) b). f_equal. lia.
    + replace (max_len st) with 0 by lia. done.
  - intros p Hpos Hp Hsub.
    apply substring_of_lookup in Hsub as (q & Hq & Hlook).
    rewrite length_take, length_drop in Hq, Hlook.
    replace (max_len st `min` (length s1 - p)) with (max_len st) in * by lia.
    assert (Hge : max_len st ≤ csuf s1 s2 (p + max_len st) (q + max_len st)).
    { apply csuf_ge. intros d Hd.
      destruct (lookup_lt_is_Some_2 s1 (p + d)) as [c Hc]; [lia|].
      exists c. split; [done|]. rewrite (Hlook d Hd).
      by rewrite lookup_take_lt, lookup_drop. }
    specialize (Hmax (p + max_len st) (q + max_len st)).
    specialize (Hfirst (p + max_len st) (q + max_len st)).
    unfold cell_done in *. lia.
Qed.

(** ** Words and phrases *)

Lemma split_on_pieces sep (s piece : pystr) :
  In piece (split_on sep s) →
  Forall (λ c, sep c = false) piece ∧ ∀ c, In c piece → In c s.
Proof.
  revert piece. induction s as [|x s IH]; intros piece; simpl.
  - intros [<-|[]]. by split.
  - destruct (sep x) eqn:Hx.
    + intros [<-|Hin]; [by split|].
      destruct (IH _ Hin) as [H1 H2]. split; [done|]. intros c Hc. right. auto.
    + pose proof (split_on_nonnil sep s) as Hne.
      destruct (split_on sep s) as [|p ps]; [done|].
      intros [<-|Hin].
      * destruct (IH p (or_introl eq_refl)) as [H1 H2]. split.
        -- by constructor.
        -- intros c [<-|Hc]; [by left|right; auto].
      * destruct (IH piece (or_intror Hin)) as [H1 H2]. split; [done|].
        intros c Hc. right. auto.
Qed.

Lemma no_member_nil {A} (l : list A) : (∀ x, ¬ In x l) → l = [].
Proof. destruct l as [|x l]; [done|]. intros H. destruct (H x). by left. Qed.

Lemma file_phrases_valid (content phrase : pystr) :
  In phrase (file_phrases content) → phrase ≠ [] ∧ py_strip phrase = phrase.
Proof.
  unfold file_phrases. rewrite filter_In, in_map_iff.
  intros [(line & <- & _) Hne]. split; [by destruct (py_strip line)|].
  apply strip_idem.
Qed.

Lemma hit_shares_char (msg_word phr_word : pystr) :
  phr_word ≠ [] →
  4 * length phr_word ≤ 5 * length (longest_common_substring msg_word phr_word) →
  ∃ c, In c msg_word ∧ In c phr_word.
Proof.
  intros Hne Hhit. destruct (lcs_is_common msg_word phr_word) as [H1 H2].
  destruct (longest_common_substring msg_word phr_word) as [|c r].
  { destruct phr_word; [done|simpl in Hhit; lia]. }
  exists c. destruct H1 as (l1 & r1 & ->), H2 as (l2 & r2 & ->).
  rewrite <- !list_elem_of_In. set_solver.
Qed.

Section words_facts.
Context {U : Unicode}.

Lemma words_wellformed (s word : pystr) :
  In word (words s) →
  word ≠ [] ∧
  Forall (λ c, py_isspace c = false ∧ ¬ In c string_punctuation) word.
Proof.
  unfold words, py_split. rewrite filter_In. intros [Hin Hne].
  split; [by destruct word|].
  destruct (split_on_pieces _ _ _ Hin) as [Hsp Hch].
  rewrite Forall_forall in Hsp |- *. intros c Hc%list_elem_of_In.
  split; [apply Hsp; by apply list_elem_of_In|].
  specialize (Hch c Hc). unfold strip_punctuation in Hch.
  apply filter_In in Hch as [_ Hp]. intros Hin'.
  apply negb_true_iff, not_true_iff_false in Hp. apply Hp.
  apply existsb_exists. exists c. split; [done|apply N.eqb_refl].
Qed.

Lemma load_phrases_valid (chat_number : pyarg) (w : world) (phrase : pystr) :
  In phrase (load_phrases chat_number w) → phrase ≠ [] ∧ py_strip phrase = phrase.
Proof.
  unfold load_phrases. destruct (os_path_exists _ w); [|done].
  destruct (read_file _ w); [|done]. apply file_phrases_valid.
Qed.

Lemma qualifying_reply (message : pystr) (chat_number : pyarg) (rnd : nat) (w : world) :
  qualifying message chat_number w ≠ [] →
  ∃ reply, find_similar_phrases message chat_number rnd w = Some reply ∧
           In reply (qualifying message chat_number w).
Proof.
  intros Hne. rewrite find_similar_phrases_spec.
  destruct (random_choice_some rnd _ Hne) as (x & Hx & Hin).
  exists x. split; [|done]. by destruct (qualifying message chat_number w).
Qed.

Lemma reply_qualifies (message reply : pystr) (chat_number : pyarg) (rnd : nat)
    (w : world) :
  find_similar_phrases message chat_number rnd w = Some reply →
  In reply (qualifying message chat_number w).
Proof.
  intros Hfind.
  destruct (qualifying message chat_number w) as [|p ps] eqn:E.
  - apply (find_similar_phrases_none message chat_number rnd w) in E. congruence.
  - destruct (qualifying_reply message chat_number rnd w) as (r & Hr & Hrin).
    + by rewrite E.
    + rewrite E in Hrin. congruence.
Qed.

(** X4. Every word the matcher compares has at least one character and
    holds no whitespace and no ASCII punctuation: the 80% test is never made
    against a word of length zero. *)
Theorem words_are_wellformed (s word : pystr) :
  In word (words s) →
  1 ≤ length word ∧
  Forall (λ c, py_isspace c = false ∧ ¬ In c string_punctuation) word.
Proof.
  intros [Hne Hall]%words_wellformed. split; [|done].
  destruct word; [done|simpl; lia].
Qed.

(** X5. When no word of the message shares a character with any word of
    any phrase of the chat, the qualifying set is empty and
    [find_similar_phrases] returns nothing. *)
Theorem no_shared_character_no_reply (message : pystr) (chat_number : pyarg)
    (rnd : nat) (w : world) :
  (∀ phrase msg_word phr_word c,
     In phrase (load_phrases chat_number w) →
     In msg_word (words message) → In phr_word (words phrase) →
     In c msg_word → ¬ In c phr_word) →
  qualifying message chat_number w = [] ∧
  find_similar_phrases message chat_number rnd w = None.
Proof.
  intros Hdisjoint.
  assert (Hq : qualifying message chat_number w = []).
  { apply no_member_nil. intros p (Hp & mw & pw & Hmw & Hpw & Hhit)%qualifying_spec.
    destruct (words_wellformed _ _ Hpw) as [Hne _].
    destruct (hit_shares_char mw pw Hne Hhit) as (c & Hc1 & Hc2).
    by apply (Hdisjoint p mw pw c). }
  split; [done|]. by apply find_similar_phrases_none.
Qed.

Lemma qualifies_by_contained_word (message phrase msg_word phr_word : pystr)
    (chat_number : pyarg) (rnd : nat) (w : world) :
  In phrase (load_phrases chat_number w) →
  In msg_word (words message) →
  In phr_word (words phrase) →
  substring_of phr_word msg_word →
  In phrase (qualifying message chat_number w) ∧
  ∃ reply, find_similar_phrases message chat_number rnd w = Some reply.
Proof.
  intros Hp Hmw Hpw Hsub.
  assert (Hq : In phrase (qualifying message chat_number w)).
  { apply qualifying_spec. split; [done|]. exists msg_word, phr_word.
    destruct (lcs_contained msg_word phr_word Hsub) as [-> _].
    repeat split; try done. lia. }
  split; [done|].
  destruct (qualifying_reply message chat_number rnd w) as (reply & Hr & _).
  { intros E. by rewrite E in Hq. }
  by exists reply.
Qed.

(** X6. A phrase of the chat qualifies, and [find_similar_phrases] answers,
    as soon as one word of the phrase occurs inside a word of the
    message. *)
Theorem contained_word_qualifies (message phrase msg_word phr_word : pystr)
    (chat_number : pyarg) (rnd : nat) (w : world) :
  In phrase (load_phrases chat_number w) →
  In msg_word (words message) →
  In phr_word (words phrase) →
  substring_of phr_word msg_word →
  In phrase (qualifying message chat_number w) ∧
  ∃ reply, find_similar_phrases message chat_number rnd w = Some reply.
Proof. apply qualifies_by_contained_word. Qed.

(** X7. Whatever [find_similar_phrases] returns is a phrase of that chat's
    corpus, not empty and without surrounding whitespace, one of whose words
    passes the 80% test against a word of the message and shares a
    character with it. *)
Theorem reply_is_a_learned_phrase (message reply : pystr) (chat_number : pyarg)
    (rnd : nat) (w : world) :
  find_similar_phrases message chat_number rnd w = Some reply →
  In reply (load_phrases chat_number w) ∧
  reply ≠ [] ∧ py_strip reply = reply ∧
  ∃ msg_word phr_word c,
    In msg_word (words message) ∧ In phr_word (words reply) ∧
    4 * length phr_word ≤ 5 * length (longest_common_substring msg_word phr_word) ∧
    In c msg_word ∧ In c phr_word.
Proof.
  intros Hin%reply_qualifies.
  apply qualifying_spec in Hin as (Hload & mw & pw & Hmw & Hpw & Hhit).
  split; [done|]. destruct (load_phrases_valid _ _ _ Hload) as [Hne Hs].
  split; [done|]. split; [done|].
  destruct (words_wellformed _ _ Hpw) as [Hpne _].
  destruct (hit_shares_char mw pw Hpne Hhit) as (c & Hc1 & Hc2).
  by exists mw, pw, c.
Qed.

(** X8. Without a corpus file, with a corpus file that cannot be read, or
    with one that holds only whitespace, no phrase is loaded and
    [find_similar_phrases] returns nothing for every message. *)
Theorem no_corpus_no_reply (message : pystr) (chat_number : pyarg) (rnd : nat)
    (w : world) :
  files w !! corpus_file chat_number = None ∨
  can_read w (corpus_file chat_number) = false ∨
  (∃ content, files w !! corpus_file chat_number = Some content ∧
              Forall (λ c, py_isspace c = true) content) →
  load_phrases chat_number w = [] ∧
  find_similar_phrases message chat_number rnd w = None.
Proof.
  intros Hcase.
  assert (Hload : load_phrases chat_number w = []).
  { unfold load_phrases, read_file. rewrite corpus_file_exists.
    destruct Hcase as [->|[Hr|(content & -> & Hblank)]]; [done| |].
    - rewrite Hr. by destruct (files w !! _).
    - destruct (can_read w _); [|done].
      apply no_member_nil. intros p Hp. unfold file_phrases in Hp.
      apply filter_In in Hp as [Hp Hne]. apply in_map_iff in Hp as (line & <- & Hl).
      destruct (split_on_pieces _ _ _ Hl) as [_ Hch].
      rewrite strip_spaces in Hne; [done|].
      rewrite Forall_forall in Hblank |- *. intros c Hc%list_elem_of_In.
      apply Hblank, list_elem_of_In. auto. }
  split; [done|]. apply find_similar_phrases_none.
  unfold qualifying. by rewrite Hload.
Qed.

End words_facts.

(** ** Chat keys *)

Lemma str_inj (s t : string) : str s = str t → s = t.
Proof.
  unfold str. intros E.
  rewrite <- (string_of_list_ascii_of_string s), <- (string_of_list_ascii_of_string t).
  f_equal. revert E. generalize (list_ascii_of_string s) (list_ascii_of_string t).
  induction l as [|a l IH]; intros [|b k]; simpl; try done.
  intros [= E1 E2]. f_equal; [|by apply IH].
  by rewrite <- (ascii_N_embedding a), <- (ascii_N_embedding b), E1.
Qed.

Lemma py_str_int_inj (a b : Z) : py_str_int a = py_str_int b → a = b.
Proof.
  unfold py_str_int. intros E%str_inj.
  apply DecimalZ.to_int_inj.
  assert (Hok : ∀ z, NilZero.int_of_string (NilZero.string_of_int (Z.to_int z))
                     = Some (Z.to_int z)).
  { intros z. apply NilZero.isi; destruct z; simpl; try done;
      intros [= H]; by apply DecimalPos.Unsigned.to_uint_nonnil in H. }
  pose proof (Hok a) as Ha. rewrite E, Hok in Ha. congruence.
Qed.

Lemma str_uint_digits (d : Decimal.uint) :
  Forall (λ c, (48 ≤ c ≤ 57)%N) (str (NilEmpty.string_of_uint d)).
Proof.
  induction d; unfold str in *; simpl; try (constructor; [lia|done]). constructor.
Qed.

Lemma py_str_int_abs (z : Z) :
  py_str_int z = (if (z <? 0)%Z then [45%N] else []) ++ py_str_int (Z.abs z).
Proof. by destruct z. Qed.

Lemma py_str_int_digits (z : Z) :
  Forall (λ c, (48 ≤ c ≤ 57)%N) (py_str_int (Z.abs z)).
Proof.
  destruct z as [|p|p]; simpl.
  - unfold py_str_int, str. simpl. repeat constructor; lia.
  - unfold py_str_int. simpl. pose proof (DecimalPos.Unsigned.to_uint_nonnil p).
    unfold NilZero.string_of_uint. destruct (Pos.to_uint p) eqn:E; try done;
      rewrite <- E; apply str_uint_digits.
  - unfold py_str_int. simpl. pose proof (DecimalPos.Unsigned.to_uint_nonnil p).
    unfold NilZero.string_of_uint. destruct (Pos.to_uint p) eqn:E; try done;
      rewrite <- E; apply str_uint_digits.
Qed.

Lemma filter_all {A} (f : A → bool) (l : list A) :
  Forall (λ x, f x = true) l → List.filter f l = l.
Proof. induction 1 as [|x l Hx _ IH]; simpl; [done|]. by rewrite Hx, IH. Qed.

Lemma safe_chat_id_int (z : Z) : safe_chat_id (PyInt z) = py_str_int (Z.abs z).
Proof.
  rewrite safe_chat_id_filter. simpl py_str. rewrite py_str_int_abs.
  rewrite List.filter_app.
  assert (List.filter (λ c, negb (c =? 43)%N && negb (c =? 45)%N)
            (if (z <? 0)%Z then [45%N] else []) = []) as ->.
  { by destruct (z <? 0)%Z. }
  simpl. apply filter_all. eapply Forall_impl; [apply py_str_int_digits|].
  intros c Hc. simpl in Hc.
  destruct (N.eqb_spec c 43), (N.eqb_spec c 45); simpl; try done; lia.
Qed.

Lemma corpus_file_inj (a b : pyarg) :
  corpus_file a = corpus_file b ↔ safe_chat_id a = safe_chat_id b.
Proof.
  unfold corpus_file. split; [|by intros ->].
  intros E%app_inv_head. by apply app_inv_tail in E.
Qed.

(** X9. Two integer chat ids use the same corpus file exactly when they
    have the same absolute value: the sign is removed from the key, so chat
    [n] and chat [-n] share their phrases. *)
Theorem corpus_shared_by_opposite_ids (a b : Z) :
  corpus_file (PyInt a) = corpus_file (PyInt b) ↔ Z.abs a = Z.abs b.
Proof.
  rewrite corpus_file_inj, !safe_chat_id_int. split.
  - apply py_str_int_inj.
  - by intros ->.
Qed.

(** X10. Learning a phrase in one chat changes neither the phrases loaded
    for a chat whose id has another absolute value nor what
    [find_similar_phrases] returns there. *)
Theorem other_chats_unaffected {U : Unicode} (a b : Z) (phrase message : pystr)
    (rnd : nat) (w : world) :
  Z.abs a ≠ Z.abs b →
  load_phrases (PyInt b) (learn_phrase phrase (PyInt a) w).2 = load_phrases (PyInt b) w ∧
  find_similar_phrases message (PyInt b) rnd (learn_phrase phrase (PyInt a) w).2 =
  find_similar_phrases message (PyInt b) rnd w.
Proof.
  intros Hne.
  assert (Hfile : corpus_file (PyInt b) ≠ corpus_file (PyInt a)).
  { rewrite corpus_file_inj, !safe_chat_id_int. intros E%py_str_int_inj. done. }
  assert (Hload : load_phrases (PyInt b) (learn_phrase phrase (PyInt a) w).2
                  = load_phrases (PyInt b) w).
  { unfold load_phrases, read_file. rewrite !corpus_file_exists.
    rewrite (learn_phrase_frame phrase (PyInt a) w _ Hfile).
    assert (can_read (learn_phrase phrase (PyInt a) w).2 = can_read w) as ->; [|done].
    eapply appended_to_env, learn_phrase_world. }
  split; [done|]. rewrite !find_similar_phrases_spec. unfold qualifying.
  by rewrite Hload.
Qed.

(** ** Learning and asking *)

Lemma learn_phrase_env phrase chat_number w :
  can_read (learn_phrase phrase chat_number w).2 = can_read w ∧
  can_write (learn_phrase phrase chat_number w).2 = can_write w ∧
  offset (learn_phrase phrase chat_number w).2 = offset w ∧
  proc_entries (learn_phrase phrase chat_number w).2 = proc_entries w ∧
  getpid (learn_phrase phrase chat_number w).2 = getpid w.
Proof.
  destruct (appended_to_env _ _ _ (learn_phrase_world phrase chat_number w))
    as (_ & ? & ? & ? & _ & ? & ?).
  done.
Qed.

Lemma load_after_learn_line phrase chat_number w :
  corpus_closed chat_number w →
  can_write w (corpus_file chat_number) = true →
  can_read w (corpus_file chat_number) = true →
  stored_phrase phrase ≠ [] →
  utf8_encodable (stored_phrase phrase) = true →
  Forall (λ c, is_newline c = false) (stored_phrase phrase) →
  load_phrases chat_number (learn_phrase phrase chat_number w).2 =
  load_phrases chat_number w ++ [stored_phrase phrase].
Proof.
  intros Hc Hw Hr Hs He Hnl. rewrite load_phrases_learn by done.
  rewrite file_phrases_line; [done|done|done|]. apply strip_idem.
Qed.

Lemma words_nil {U : Unicode} : words [] = [].
Proof. unfold words. by rewrite py_lower_ascii by constructor. Qed.

(** X11. What has just been learned is found: after [learn_phrase], which
    then raises nothing, the stored text sent as a message qualifies itself
    and gets a reply, provided UTF-8 encodes it, it has a word left after
    normalisation, holds no line break, and the corpus file is closed,
    writable and readable. *)
Theorem learned_phrase_is_found {U : Unicode} (phrase : pystr)
    (chat_number : pyarg) (rnd : nat) (w : world) :
  corpus_closed chat_number w →
  can_write w (corpus_file chat_number) = true →
  can_read w (corpus_file chat_number) = true →
  utf8_encodable (stored_phrase phrase) = true →
  Forall (λ c, is_newline c = false) (stored_phrase phrase) →
  words (stored_phrase phrase) ≠ [] →
  (learn_phrase phrase chat_number w).1 = Ret tt ∧
  In (stored_phrase phrase)
     (qualifying (stored_phrase phrase) chat_number
        (learn_phrase phrase chat_number w).2) ∧
  ∃ reply,
    find_similar_phrases (stored_phrase phrase) chat_number rnd
      (learn_phrase phrase chat_number w).2 = Some reply.
Proof.
  intros Hc Hw Hr He Hnl Hwords.
  assert (Hs : stored_phrase phrase ≠ []).
  { intros E. rewrite E in Hwords. by rewrite words_nil in Hwords. }
  split; [by rewrite learn_phrase_written|].
  destruct (words (stored_phrase phrase)) as [|word rest] eqn:Ew; [done|].
  apply (qualifies_by_contained_word _ _ word word).
  - rewrite load_after_learn_line by done. apply in_or_app. right. by left.
  - rewrite Ew. by left.
  - rewrite Ew. by left.
  - apply substring_of_refl.
Qed.

(** X12. There is no deduplication: learning the same phrase twice adds it
    twice at the end of the chat's phrases, for a phrase that UTF-8 encodes
    and a corpus file that is closed, writable and readable. *)
Theorem learning_twice_stores_twice (phrase : pystr) (chat_number : pyarg)
    (w : world) :
  corpus_closed chat_number w →
  can_write w (corpus_file chat_number) = true →
  can_read w (corpus_file chat_number) = true →
  stored_phrase phrase ≠ [] →
  utf8_encodable (stored_phrase phrase) = true →
  Forall (λ c, is_newline c = false) (stored_phrase phrase) →
  load_phrases chat_number
    (learn_phrase phrase chat_number (learn_phrase phrase chat_number w).2).2 =
  load_phrases chat_number w ++ [stored_phrase phrase; stored_phrase phrase].
Proof.
  intros Hc Hw Hr Hs He Hnl.
  destruct (learn_phrase_env phrase chat_number w) as (Er & Ew & _).
  rewrite load_after_learn_line; try done.
  - rewrite load_after_learn_line by done. by rewrite <- app_assoc.
  - by apply learn_phrase_closed.
  - by rewrite Ew.
  - by rewrite Er.
Qed.

(** ** Routing *)

Lemma py_split1_token (cmd rest : pystr) :
  ¬ In 32%N cmd →
  py_split1 32 cmd = [cmd] ∧ py_split1 32 (cmd ++ 32%N :: rest) = [cmd; rest].
Proof.
  induction cmd as [|c cmd IH]; intros Hno; [done|].
  destruct IH as [IH1 IH2]; [intros ?; apply Hno; by right|].
  cbn [py_split1 app]. destruct (N.eqb_spec c 32) as [->|_].
  { destruct Hno. by left. }
  by rewrite IH1, IH2.
Qed.

Section routing_facts.
Context {U : Unicode}.

Lemma process_message_token (cmd tail chat_name : pystr) (chat_number : pyarg)
    (rnd : nat) (w : world) :
  py_startswith (str "/") cmd = true →
  ¬ In 32%N cmd →
  tail = [] ∨ (∃ rest, tail = 32%N :: rest) →
  py_startswith (str "/") (cmd ++ tail) = true ∧
  nth 0 (py_split1 32 (cmd ++ tail)) [] = cmd.
Proof.
  intros Hslash Hno Htail. split.
  - destruct cmd as [|c cmd]; [done|]. exact Hslash.
  - destruct Htail as [->|(rest & ->)].
    + rewrite app_nil_r. by destruct (py_split1_token cmd [] Hno) as [-> _].
    + by destruct (py_split1_token cmd rest Hno) as [_ ->].
Qed.

(** X13. /help, /stop and /start are recognised in any letter case, alone
    or followed by a space and anything; the reply is the fixed text and the
    world is unchanged. *)
Theorem fixed_command_replies (cmd tail chat_name : pystr) (chat_number : pyarg)
    (rnd : nat) (w : world) :
  py_startswith (str "/") cmd = true →
  ¬ In 32%N cmd →
  tail = [] ∨ (∃ rest, tail = 32%N :: rest) →
  (py_lower cmd = str "/help" →
   process_message (cmd ++ tail) chat_name chat_number rnd w
   = (Ret (Some help_text), w)) ∧
  (py_lower cmd = str "/stop" →
   process_message (cmd ++ tail) chat_name chat_number rnd w
   = (Ret (Some (str "Bot stopped")), w)) ∧
  (py_lower cmd = str "/start" →
   process_message (cmd ++ tail) chat_name chat_number rnd w
   = (Ret (Some (str "Bot started!")), w)).
Proof.
  intros Hslash Hno Htail.
  destruct (process_message_token cmd tail chat_name chat_number rnd w
              Hslash Hno Htail) as [Hs Hc].
  unfold process_message. rewrite Hs, Hc.
  repeat split; intros ->; reflexivity.
Qed.

Lemma path_error_none (p : pystr) :
  Forall (λ c, (0 < c < 55296)%N) p → path_error p = None.
Proof.
  intros Hp. unfold path_error.
  assert (forallb (λ c, (negb (is_surrogate c) || (56448 <=? c) && (c <=? 56575))
                        && (c <=? 1114111))%N p = true) as ->.
  { apply forallb_forall. intros c Hc%list_elem_of_In.
    rewrite Forall_forall in Hp. specialize (Hp c Hc). unfold is_surrogate.
    apply andb_true_iff. split; [|apply N.leb_le; lia].
    apply orb_true_iff. left. apply negb_true_iff, andb_false_iff. left.
    apply N.leb_gt. lia. }
  simpl. assert (existsb (N.eqb 0) p = false) as ->; [|done].
  apply not_true_is_false. intros (c & Hc%list_elem_of_In & E%N.eqb_eq)%existsb_exists.
  rewrite Forall_forall in Hp. specialize (Hp c Hc). lia.
Qed.

(** The corpus file of an integer chat id has a name that [open] takes. *)
Lemma corpus_file_int_path (z : Z) : path_error (corpus_file (PyInt z)) = None.
Proof.
  apply path_error_none. unfold corpus_file. rewrite safe_chat_id_int.
  apply Forall_app. split; [unfold str; simpl; repeat constructor; lia|].
  apply Forall_app. split; [|unfold str; simpl; repeat constructor; lia].
  eapply Forall_impl; [apply py_str_int_digits|]. simpl. lia.
Qed.

Lemma learn_phrase_denied_outcome (phrase : pystr) (chat_number : pyarg) (w : world) :
  stored_phrase phrase ≠ [] →
  can_write w (corpus_file chat_number) = false →
  learn_phrase phrase chat_number w =
  (match path_error (corpus_file chat_number) with
   | Some e => Raise e
   | None => Ret tt
   end, w).
Proof.
  intros Hs Hw. rewrite learn_phrase_guarded by done.
  destruct (guarded_append_cases (corpus_file chat_number)
              (stored_phrase phrase ++ [10%N]) w)
    as [[_ ->]|[(? & _)|(? & _)]]; [done|congruence..].
Qed.

(** X14. "/learn " followed by an argument is answered with
    "Phrase learned!" whenever [learn_phrase] returns: when nothing is left
    to store, when the text is stored, and also when the corpus file cannot
    be opened and nothing is stored (the name of an integer chat's corpus
    file is always one [open] takes).  There is no answer when the file can
    be opened and UTF-8 does not encode the text to store:
    [UnicodeEncodeError] leaves [process_message] and the chat's phrases are
    as before.  "/learn" alone is no command and goes to the matcher. *)
Theorem learn_confirmation_cases (arg chat_name : pystr)
    (chat_number : pyarg) (rnd : nat) (w : world) :
  (stored_phrase arg = [] →
   process_message (str "/learn " ++ arg) chat_name chat_number rnd w
   = (Ret (Some (str "Phrase learned!")), w)) ∧
  (can_write w (corpus_file chat_number) = true →
   utf8_encodable (stored_phrase arg) = true →
   (process_message (str "/learn " ++ arg) chat_name chat_number rnd w).1
   = Ret (Some (str "Phrase learned!"))) ∧
  (can_write w (corpus_file chat_number) = false →
   path_error (corpus_file chat_number) = None →
   process_message (str "/learn " ++ arg) chat_name chat_number rnd w
   = (Ret (Some (str "Phrase learned!")), w)) ∧
  (∀ chat_id, path_error (corpus_file (PyInt chat_id)) = None) ∧
  (stored_phrase arg ≠ [] →
   can_write w (corpus_file chat_number) = true →
   utf8_encodable (stored_phrase arg) = false →
   (process_message (str "/learn " ++ arg) chat_name chat_number rnd w).1
   = Raise UnicodeEncodeError ∧
   load_phrases chat_number
     (process_message (str "/learn " ++ arg) chat_name chat_number rnd w).2
   = load_phrases chat_number w) ∧
  process_message (str "/learn") chat_name chat_number rnd w
  = (Ret (find_similar_phrases (str "/learn") chat_number rnd w), w).
Proof.
  split; [|split; [|split; [|split; [|split]]]].
  - intros Hs. by rewrite learn_command, learn_phrase_empty.
  - intros Hw He. rewrite learn_command.
    destruct (decide (stored_phrase arg = [])) as [Hs|Hs].
    + by rewrite learn_phrase_empty.
    + by rewrite learn_phrase_written.
  - intros Hw Hp. rewrite learn_command.
    destruct (decide (stored_phrase arg = [])) as [Hs|Hs].
    + by rewrite learn_phrase_empty.
    + rewrite learn_phrase_denied_outcome by done. by rewrite Hp.
  - apply corpus_file_int_path.
  - intros Hs Hw He. rewrite learn_command_world, learn_command.
    destruct (learn_phrase_kept arg chat_number w Hs Hw He) as (H1 & _ & H2).
    split; [|done]. destruct (learn_phrase arg chat_number w) as [[[]|e] w'];
      simpl in *; congruence.
  - unfold process_message. change (py_split1 32 (str "/learn")) with [str "/learn"].
    cbn [nth]. rewrite py_lower_ascii by ascii_text. reflexivity.
Qed.

Lemma learn_phrase_keeps (phrase : pystr) (chat_number : pyarg) (w : world)
    (path content : pystr) :
  files w !! path = Some content →
  ∃ added, files (learn_phrase phrase chat_number w).2 !! path = Some (content ++ added).
Proof. eapply appended_to_keeps, learn_phrase_world. Qed.

(** X15. [process_message] leaves the trace and the cursor alone, changes no
    file but the chat's corpus file, and never removes or rewrites stored
    text: every file keeps its former content as a prefix. *)
Theorem process_message_only_appends (message chat_name : pystr)
    (chat_number : pyarg) (rnd : nat) (w : world) :
  trace (process_message message chat_name chat_number rnd w).2 = trace w ∧
  offset (process_message message chat_name chat_number rnd w).2 = offset w ∧
  (∀ path, path ≠ corpus_file chat_number →
     files (process_message message chat_name chat_number rnd w).2 !! path
     = files w !! path) ∧
  (∀ path content, files w !! path = Some content →
     ∃ added, files (process_message message chat_name chat_number rnd w).2 !! path
              = Some (content ++ added)).
Proof.
  pose proof (process_message_world message chat_name chat_number rnd w) as Hw.
  split; [apply process_message_trace|].
  split; [eapply appended_to_env, Hw|]. split.
  - intros path Hp. by eapply appended_to_frame.
  - intros path content Hp. by eapply appended_to_keeps.
Qed.

Lemma process_message_reply_nonempty (message chat_name : pystr)
    (chat_number : pyarg) (rnd : nat) (w : world) :
  (process_message message chat_name chat_number rnd w).1 ≠ Ret (Some []).
Proof.
  assert (Hfind : find_similar_phrases message chat_number rnd w ≠ Some []).
  { intros Hr%reply_qualifies%qualifying_spec. destruct Hr as [Hl _].
    by destruct (load_phrases_valid _ _ _ Hl). }
  unfold process_message, bind, ret.
  repeat match goal with |- context [if ?b then _ else _] => destruct b end;
    simpl; try done.
  - by destruct (learn_phrase _ _ w) as [[[]|e] w'].
  - congruence.
  - congruence.
Qed.

(** X16. [process_message] never returns the empty string as a reply. *)
Theorem reply_is_never_empty (message chat_name : pystr) (chat_number : pyarg)
    (rnd : nat) (w : world) :
  (process_message message chat_name chat_number rnd w).1 ≠ Ret (Some []).
Proof. apply process_message_reply_nonempty. Qed.

End routing_facts.

(** ** The chat log *)

Lemma rstrip_prefix (s : pystr) : ∃ r, s = py_rstrip s ++ r.
Proof.
  unfold py_rstrip. destruct (lstrip_suffix (rev s)) as (l & Hl). exists (rev l).
  apply (f_equal (@rev _)) in Hl. by rewrite rev_involutive, rev_app_distr in Hl.
Qed.

Lemma strip_sub (s : pystr) (c : char) : In c (py_strip s) → In c s.
Proof.
  intros Hc. unfold py_strip in Hc.
  destruct (rstrip_prefix (py_lstrip s)) as (r & Hr).
  destruct (lstrip_suffix s) as (l & Hl).
  rewrite Hl. apply in_or_app. right. rewrite Hr. apply in_or_app. by left.
Qed.

Lemma replace_sub (old s : pystr) (skip : nat) (c : char) :
  In c (replace_from old [] s skip) → In c s.
Proof.
  revert skip. induction s as [|a s IH]; intros skip; [done|].
  cbn [replace_from]. destruct skip as [|k].
  - destruct (py_startswith old (a :: s)).
    + intros Hc. right. by apply (IH _ Hc).
    + intros [->|Hc]; [by left|]. right. by apply (IH _ Hc).
  - intros Hc. right. by apply (IH _ Hc).
Qed.

Lemma split1_sub (sep : char) (s piece : pystr) (c : char) :
  In piece (py_split1 sep s) → In c piece → In c s.
Proof.
  revert piece. induction s as [|a s IH]; intros piece.
  { by intros [<-|[]]. }
  cbn [py_split1]. destruct (a =? sep)%N.
  { intros [<-|[<-|[]]]; [done|]. by right. }
  destruct (py_split1 sep s) as [|first rest].
  { intros [<-|[]] [->|[]]. by left. }
  intros [<-|Hp].
  - intros [->|Hc]; [by left|]. right. apply (IH first); [by left|done].
  - intros Hc. right. apply (IH piece); [by right|done].
Qed.

(** What is stored of an argument cut from a text holds characters of that
    text only. *)
Lemma stored_phrase_sub (text : pystr) (c : char) :
  In c (stored_phrase (nth 1 (py_split1 32 text) [])) → In c text.
Proof.
  intros Hc%strip_sub%replace_sub.
  destruct (nth_in_or_default 1 (py_split1 32 text) []) as [Hin|E].
  - by apply (split1_sub 32 text _ c Hin).
  - by rewrite E in Hc.
Qed.

Lemma path_error_ok (p : pystr) :
  utf8_encodable p = true → ¬ In 0%N p → path_error p = None.
Proof.
  intros He H0. unfold path_error.
  assert (forallb (λ c, (negb (is_surrogate c) || (56448 <=? c) && (c <=? 56575))
                        && (c <=? 1114111))%N p = true) as ->.
  { unfold utf8_encodable in He. rewrite forallb_forall in He.
    apply forallb_forall. intros c Hc. specialize (He c Hc).
    apply andb_true_iff in He as [-> ->]. done. }
  simpl. assert (existsb (N.eqb 0) p = false) as ->; [|done].
  apply not_true_is_false. intros (c & Hc & E%N.eqb_eq)%existsb_exists.
  by subst c.
Qed.

Section log_facts.
Context {U : Unicode}.

Lemma log_file_name_safe (logname : pystr) :
  ∃ safe, log_file_name logname = str "chatlogs/" ++ safe ++ str "_log.txt" ∧
          safe ≠ [] ∧
          Forall (λ c, py_isalnum c = true ∨ c = 32%N ∨ c = 45%N ∨ c = 95%N) safe ∧
          (utf8_encodable logname = true → utf8_encodable safe = true).
Proof.
  unfold log_file_name.
  set (kept := List.filter _ logname).
  assert (Hkept : Forall (λ c, py_isalnum c = true ∨ c = 32%N ∨ c = 45%N ∨ c = 95%N) kept).
  { apply Forall_forall. intros c Hc%list_elem_of_In. apply filter_In in Hc as [_ Hc].
    apply orb_true_iff in Hc as [?|Hc]; [by left|right].
    cbn in Hc. repeat (apply orb_true_iff in Hc as [Hc|Hc]);
      try apply N.eqb_eq in Hc; auto. done. }
  destruct (nonempty (py_rstrip kept)) eqn:E.
  - exists (py_rstrip kept). split; [done|]. split; [by destruct (py_rstrip kept)|].
    destruct (rstrip_prefix kept) as (r & Hr). split.
    + rewrite Hr in Hkept. by apply Forall_app in Hkept as [? _].
    + apply utf8_encodable_sub. intros c Hc.
      assert (In c kept) as Hk. { rewrite Hr. apply in_or_app. by left. }
      by apply filter_In in Hk as [? _].
  - exists (str "unknown"). split; [done|]. split; [done|]. split; [|done].
    unfold str; simpl.
    repeat (constructor; [left; by rewrite py_isalnum_ascii|]). constructor.
Qed.

Lemma log_file_name_clean (logname : pystr) :
  ∃ safe, log_file_name logname = str "chatlogs/" ++ safe ++ str "_log.txt" ∧
          safe ≠ [] ∧ ¬ In 47%N safe ∧ ¬ In 46%N safe ∧ ¬ In 0%N safe ∧
          (utf8_encodable logname = true → utf8_encodable safe = true).
Proof.
  destruct (log_file_name_safe logname) as (safe & Hname & Hne & Hall & Henc).
  exists safe. split; [done|]. split; [done|].
  assert (Hnot : ∀ c, (c < 128)%N → ascii_isalnum c = false →
                      c ≠ 32%N → c ≠ 45%N → c ≠ 95%N → ¬ In c safe).
  { intros c Hc Hal H1 H2 H3 Hin%list_elem_of_In. rewrite Forall_forall in Hall.
    destruct (Hall c Hin) as [Ha|[?|[?|?]]]; try done.
    rewrite py_isalnum_ascii in Ha by done. congruence. }
  split; [by apply Hnot|]. split; [by apply Hnot|]. split; [by apply Hnot|done].
Qed.

(** The log file of a name that UTF-8 encodes has a name that [open]
    takes. *)
Lemma log_file_path_ok (logname : pystr) :
  utf8_encodable logname = true → path_error (log_file_name logname) = None.
Proof.
  intros He.
  destruct (log_file_name_clean logname) as (safe & -> & _ & _ & _ & H0 & Hs).
  apply path_error_ok.
  - rewrite !utf8_encodable_app, Hs by done. reflexivity.
  - intros [Hc|[Hc|Hc]%in_app_or]%in_app_or; [|done|].
    + unfold str in Hc; simpl in Hc. intuition discriminate.
    + unfold str in Hc; simpl in Hc. intuition discriminate.
Qed.

Lemma log_file_name_not_corpus (logname : pystr) (chat_number : pyarg) :
  log_file_name logname ≠ corpus_file chat_number ∧ log_file_name logname ≠ lock_file.
Proof. split; discriminate. Qed.

Lemma log_file_name_formula (logname : pystr) :
  log_file_name logname =
  let kept :=
    py_rstrip (List.filter
      (λ c, py_isalnum c || (c =? 32)%N || (c =? 45)%N || (c =? 95)%N) logname) in
  str "chatlogs/" ++ (if nonempty kept then kept else str "unknown")
  ++ str "_log.txt".
Proof.
  unfold log_file_name. cbv zeta.
  rewrite (List.filter_ext
    (λ c, py_isalnum c || existsb (N.eqb c) (str " -_"))
    (λ c, py_isalnum c || (c =? 32)%N || (c =? 45)%N || (c =? 95)%N)); [done|].
  intros c.
  change (existsb (N.eqb c) (str " -_"))
    with ((c =? 32)%N || ((c =? 45)%N || ((c =? 95)%N || false))).
  by destruct (py_isalnum c), (c =? 32)%N, (c =? 45)%N, (c =? 95)%N.
Qed.

(** X17. [log_event] works on one file only, [chatlogs/<safe>_log.txt],
    where [safe] is the log name without the characters that are neither
    alphanumeric nor a space, a hyphen or an underscore, trimmed on the
    right, and ["unknown"] when nothing is left; [safe] is never empty and
    holds no slash, no dot and no NUL.  When that file can be opened, the
    line [<ctime> >> <text>] is appended to it if UTF-8 encodes it; if not,
    [UnicodeEncodeError] leaves [log_event] and the file keeps its content.
    When the file cannot be opened nothing changes, and the error is
    swallowed unless the name itself is at fault, which a log name that
    UTF-8 encodes excludes. *)
Theorem log_event_is_confined (text logname : pystr) (w : world) :
  let kept :=
    py_rstrip (List.filter
      (λ c, py_isalnum c || (c =? 32)%N || (c =? 45)%N || (c =? 95)%N) logname) in
  let safe := if nonempty kept then kept else str "unknown" in
  let path := str "chatlogs/" ++ safe ++ str "_log.txt" in
  let line := ctime w ++ str " >> " ++ text ++ [10%N] in
  log_file_name logname = path ∧
  (safe ≠ [] ∧ ¬ In 47%N safe ∧ ¬ In 46%N safe ∧ ¬ In 0%N safe) ∧
  (∀ other, other ≠ path →
     files (log_event text logname w).2 !! other = files w !! other) ∧
  (can_write w path = true → utf8_encodable line = true →
   log_event text logname w =
   (Ret tt, with_files (<[path := default [] (files w !! path) ++ line]> (files w)) w)) ∧
  (can_write w path = true → utf8_encodable line = false →
   log_event text logname w =
   (Raise UnicodeEncodeError,
    with_files (<[path := default [] (files w !! path)]> (files w)) w)) ∧
  (can_write w path = false →
   log_event text logname w =
   (match path_error path with Some e => Raise e | None => Ret tt end, w)) ∧
  (utf8_encodable logname = true → path_error path = None).
Proof.
  intros kept safe path line.
  assert (Hpath : log_file_name logname = path) by apply log_file_name_formula.
  split; [done|]. split.
  { destruct (log_file_name_clean logname) as (safe' & Hname & Hne & H1 & H2 & H3 & _).
    rewrite Hpath in Hname. unfold path in Hname.
    apply app_inv_head, app_inv_tail in Hname. by subst safe'. }
  rewrite <- Hpath. split.
  { intros other Ho. eapply appended_to_frame; [apply log_event_world|done]. }
  rewrite log_event_file. fold line.
  destruct (guarded_append_cases (log_file_name logname) line w)
    as [[Hw ->]|[(Hw & He & ->)|(Hw & He & ->)]].
  - split; [congruence|]. split; [congruence|]. split; [done|].
    apply log_file_path_ok.
  - split; [done|]. split; [congruence|]. split; [congruence|].
    apply log_file_path_ok.
  - split; [congruence|]. split; [done|]. split; [congruence|].
    apply log_file_path_ok.
Qed.

End log_facts.

Section update_facts.
Context {U : Unicode}.

Lemma extract_textless (update : tg_update) (w : world) :
  textless update → extract_message_info update w = (Ret None, w).
Proof.
  unfold textless, extract_message_info.
  destruct (message update) as [msg|]; [|done]. by intros ->.
Qed.

Lemma extract_raising (update : tg_update) :
  raising update → ∃ e, ∀ w, extract_message_info update w = (Raise e, w).
Proof.
  intros (msg & text & Hm & Ht & Hc).
  unfold extract_message_info, bind, getitem, raise, ret. rewrite Hm, Ht.
  destruct (m_chat msg) as [chat|]; [|by eexists].
  destruct (c_id chat) as [chat_id|]; [|by eexists].
  destruct Hc as [?|[-> | ->]]; [done| |]; by eexists.
Qed.

Lemma extract_private (update : tg_update) (text : pystr) (chat_id : Z)
    (from_user : tg_user) (w : world) :
  private_text update text chat_id from_user →
  extract_message_info update w =
  match log_event (str "Message from " ++ private_chat_name from_user ++ str ": " ++ text)
          (private_chat_name from_user) w with
  | (Ret _, w') =>
      (Ret (Some (text, chat_id, private_chat_name from_user, chat_id)), w')
  | (Raise e, w') => (Raise e, w')
  end.
Proof.
  intros (msg & chat & Hm & Ht & Hc & Hid & Hg & Hs & ->).
  unfold extract_message_info, bind, getitem, raise, ret.
  rewrite Hm, Ht, Hc, Hid.
  rewrite !bool_decide_false; [done| |].
  - destruct (c_type chat); simpl; [congruence|discriminate].
  - destruct (c_type chat); simpl; [congruence|discriminate].
Qed.

Lemma handle_update_textless rnd update w :
  textless update → handle_update rnd update w = (Ret tt, w).
Proof.
  intros Ht. unfold handle_update, bind. by rewrite extract_textless.
Qed.

Lemma handle_updates_cons rnd (update : tg_update) (rest : list tg_update) w :
  handle_updates rnd (update :: rest) w =
  match handle_update (rnd 0) update w with
  | (Ret _, w1) => handle_updates (λ k, rnd (S k)) rest w1
  | (Raise e, w1) => (Raise e, w1)
  end.
Proof. reflexivity. Qed.

Lemma handle_updates_app rnd (pre post : list tg_update) (w : world) :
  handle_updates rnd (pre ++ post) w =
  match handle_updates rnd pre w with
  | (Ret _, w1) => handle_updates (λ k, rnd (length pre + k)) post w1
  | (Raise e, w1) => (Raise e, w1)
  end.
Proof.
  revert rnd w. induction pre as [|u pre IH]; intros rnd w; [done|].
  cbn [app length]. rewrite !handle_updates_cons.
  destruct (handle_update (rnd 0) u w) as [[[]|e] w1]; [|done].
  by rewrite IH.
Qed.

(** X18. Updates without a message or without text are skipped: a batch of
    them changes nothing and raises nothing, and in front of other updates
    they only use up their generator draws. *)
Theorem textless_updates_are_skipped (rnd : nat → nat)
    (updates rest : list tg_update) (w : world) :
  Forall textless updates →
  handle_updates rnd updates w = (Ret tt, w) ∧
  handle_updates rnd (updates ++ rest) w =
  handle_updates (λ k, rnd (length updates + k)) rest w.
Proof.
  intros Hall.
  assert (Hskip : ∀ rnd, handle_updates rnd updates w = (Ret tt, w)).
  { clear rnd. induction Hall as [|u us Hu _ IH]; intros rnd; [done|].
    rewrite handle_updates_cons. by rewrite handle_update_textless. }
  split; [apply Hskip|]. by rewrite handle_updates_app, Hskip.
Qed.

Lemma private_chat_name_nonempty (from_user : tg_user) :
  private_chat_name from_user ≠ [].
Proof.
  unfold private_chat_name, py_or, user_fallback.
  destruct (nonempty (py_strip _)) eqn:E; [by destruct (py_strip _)|done].
Qed.

(** X19. For a text message of a chat that is no group, with a chat id,
    [extract_message_info] logs the line
    [<ctime> >> Message from <name>: <text>] under the display name and
    returns the text, the chat id twice and that name.  The name is the
    first and the last name joined by a space and trimmed or, when that is
    empty, ["User "] followed by the sender's id (by nothing when there is
    no id); it is never empty.  The tuple is returned when UTF-8 encodes the
    line, also when the log file cannot be opened.  When the line holds a
    character UTF-8 does not encode (a lone surrogate in the text) and the
    log file can be opened, [UnicodeEncodeError] leaves
    [extract_message_info].  Only the chat log can change: the trace, the
    cursor, every corpus file and the lock file are as before. *)
Theorem private_message_is_extracted (update : tg_update) (text : pystr)
    (chat_id : Z) (from_user : tg_user) (w : world) :
  private_text update text chat_id from_user →
  let full := py_strip (default [] (u_first_name from_user) ++ str " "
                        ++ default [] (u_last_name from_user)) in
  let chat_name :=
    if nonempty full then full
    else str "User " ++ match u_id from_user with
                        | Some user_id => py_str_int user_id
                        | None => []
                        end in
  let path := log_file_name chat_name in
  let line := ctime w ++ str " >> "
              ++ (str "Message from " ++ chat_name ++ str ": " ++ text) ++ [10%N] in
  chat_name ≠ [] ∧
  (utf8_encodable line = true →
   (extract_message_info update w).1 = Ret (Some (text, chat_id, chat_name, chat_id)) ∧
   (can_write w path = true →
    files (extract_message_info update w).2 !! path
    = Some (default [] (files w !! path) ++ line)) ∧
   (can_write w path = false → (extract_message_info update w).2 = w)) ∧
  (utf8_encodable line = false → can_write w path = true →
   (extract_message_info update w).1 = Raise UnicodeEncodeError ∧
   files (extract_message_info update w).2 !! path
   = Some (default [] (files w !! path))) ∧
  trace (extract_message_info update w).2 = trace w ∧
  offset (extract_message_info update w).2 = offset w ∧
  (∀ chat_number, files (extract_message_info update w).2 !! corpus_file chat_number
                  = files w !! corpus_file chat_number) ∧
  files (extract_message_info update w).2 !! lock_file = files w !! lock_file.
Proof.
  intros Hp full chat_name path line.
  assert (Hname : private_chat_name from_user = chat_name) by reflexivity.
  split; [rewrite <- Hname; apply private_chat_name_nonempty|].
  rewrite (extract_private _ _ _ _ _ Hp), Hname.
  pose proof (log_event_world
    (str "Message from " ++ chat_name ++ str ": " ++ text) chat_name w) as Hworld.
  rewrite log_event_file in Hworld |- *. fold path line in Hworld |- *.
  assert (Hframe : ∀ w', appended_to path w w' →
    trace w' = trace w ∧ offset w' = offset w ∧
    (∀ chat_number, files w' !! corpus_file chat_number
                    = files w !! corpus_file chat_number) ∧
    files w' !! lock_file = files w !! lock_file).
  { intros w' Hw'. destruct (appended_to_env _ _ _ Hw') as (? & ? & _).
    split; [done|]. split; [done|]. split.
    - intros chat_number. eapply appended_to_frame; [done|].
      intros E. symmetry in E. revert E. apply log_file_name_not_corpus.
    - eapply appended_to_frame; [done|]. intros E. symmetry in E. revert E.
      apply (log_file_name_not_corpus _ (PyInt 0)). }
  destruct (guarded_append_cases path line w)
    as [[Hw E]|[(Hw & He & E)|(Hw & He & E)]]; rewrite E in Hworld |- *.
  - split.
    { intros He. assert (utf8_encodable chat_name = true) as Hn.
      { apply (utf8_encodable_sub _ line); [|done].
        intros c Hc. unfold line. rewrite !in_app_iff. tauto. }
      unfold path in *. rewrite log_file_path_ok by done.
      split; [done|]. split; [congruence|done]. }
    split; [congruence|]. destruct (path_error path); by apply Hframe.
  - split.
    { intros _. split; [done|]. split; [|congruence]. intros _. simpl.
      by rewrite lookup_insert_eq. }
    split; [congruence|]. by apply Hframe.
  - split; [congruence|]. split.
    { intros _ _. split; [done|]. simpl. by rewrite lookup_insert_eq. }
    by apply Hframe.
Qed.

Lemma handle_update_private (rnd : nat) (update : tg_update) (text : pystr)
    (chat_id : Z) (from_user : tg_user) (w : world) :
  private_text update text chat_id from_user →
  handle_update rnd update w =
  match extract_message_info update w with
  | (Raise e, w1) => (Raise e, w1)
  | (Ret _, w1) =>
      match process_message text (private_chat_name from_user) (PyInt chat_id) rnd w1 with
      | (Raise e, w2) => (Raise e, w2)
      | (Ret (Some (c :: r)), w2) => (Ret tt, emit (EvSendMessage chat_id (c :: r)) w2)
      | (Ret _, w2) => (Ret tt, w2)
      end
  end.
Proof.
  intros Hp. unfold handle_update, bind. rewrite (extract_private _ _ _ _ _ Hp).
  destruct (log_event _ _ w) as [[[]|e] w1]; [|done].
  by destruct (process_message _ _ _ _ w1) as [[[[|c r]|]|e] w2].
Qed.

(** [process_message] returns for a text that UTF-8 encodes, in a chat with
    an integer id. *)
Lemma process_message_returns (text chat_name : pystr) (chat_id : Z) (rnd : nat)
    (w : world) :
  utf8_encodable text = true →
  ∃ response, (process_message text chat_name (PyInt chat_id) rnd w).1 = Ret response.
Proof.
  intros He. unfold process_message, bind, ret.
  repeat match goal with |- context [if ?b then _ else _] => destruct b end;
    try by eexists.
  set (arg := nth 1 (py_split1 32 text) []).
  assert (Hs : utf8_encodable (stored_phrase arg) = true).
  { apply (utf8_encodable_sub _ text); [|done]. intros c. apply stored_phrase_sub. }
  destruct (decide (stored_phrase arg = [])) as [E|E].
  { rewrite learn_phrase_empty by done. by eexists. }
  destruct (can_write w (corpus_file (PyInt chat_id))) eqn:Hw.
  - rewrite learn_phrase_written by done. by eexists.
  - rewrite learn_phrase_denied_outcome, corpus_file_int_path by done. by eexists.
Qed.

(** X20. Handling a text message of a private chat: the reply
    [process_message] produces is sent exactly once, to the chat the message
    came from, and without a reply nothing is sent.  When logging the
    message or learning from it raises, nothing is sent at all.  Nothing is
    raised when UTF-8 encodes the time stamp, the text and the display name;
    a text with a character it does not encode (a lone surrogate) makes the
    handling raise [UnicodeEncodeError] once the log file is open. *)
Theorem every_reply_is_sent (rnd : nat) (update : tg_update) (text : pystr)
    (chat_id : Z) (from_user : tg_user) (w : world) :
  private_text update text chat_id from_user →
  (∀ e, (handle_update rnd update w).1 = Raise e →
        trace (handle_update rnd update w).2 = trace w) ∧
  ((handle_update rnd update w).1 = Ret tt →
   ∃ w1 response w2,
     extract_message_info update w
     = (Ret (Some (text, chat_id, private_chat_name from_user, chat_id)), w1) ∧
     process_message text (private_chat_name from_user) (PyInt chat_id) rnd w1
     = (Ret response, w2) ∧
     trace w2 = trace w ∧
     (handle_update rnd update w).2 =
     match response with
     | Some reply => emit (EvSendMessage chat_id reply) w2
     | None => w2
     end) ∧
  (utf8_encodable (ctime w) = true → utf8_encodable text = true →
   utf8_encodable (private_chat_name from_user) = true →
   (handle_update rnd update w).1 = Ret tt) ∧
  (utf8_encodable text = false →
   can_write w (log_file_name (private_chat_name from_user)) = true →
   (handle_update rnd update w).1 = Raise UnicodeEncodeError).
Proof.
  intros Hp. rewrite (handle_update_private _ _ _ _ _ _ Hp).
  pose proof (extract_message_info_trace update w) as Ht1.
  rewrite (extract_private _ _ _ _ _ Hp) in Ht1 |- *.
  set (name := private_chat_name from_user) in *.
  rewrite log_event_file in Ht1 |- *.
  set (line := ctime w ++ str " >> "
               ++ (str "Message from " ++ name ++ str ": " ++ text) ++ [10%N]) in *.
  assert (Hline : utf8_encodable line =
                  utf8_encodable (ctime w) && utf8_encodable name
                  && utf8_encodable text).
  { unfold line. rewrite !utf8_encodable_app.
    change (utf8_encodable (str " >> ")) with true.
    change (utf8_encodable (str "Message from ")) with true.
    change (utf8_encodable (str ": ")) with true.
    change (utf8_encodable [10%N]) with true.
    by destruct (utf8_encodable (ctime w)), (utf8_encodable name),
         (utf8_encodable text). }
  destruct (try_except _ _ _ w) as [[[]|e1] w1] eqn:Elog; simpl in Ht1.
  - pose proof (process_message_trace text name (PyInt chat_id) rnd w1) as Ht2.
    pose proof (process_message_reply_nonempty text name (PyInt chat_id) rnd w1) as Hne.
    pose proof (process_message_returns text name chat_id rnd w1) as Hret.
    destruct (process_message text name (PyInt chat_id) rnd w1)
      as [[[[|c r]|]|e2] w2] eqn:Ep; simpl in Ht2, Hne, Hret |- *.
    + done.
    + split; [done|]. split.
      { intros _. exists w1, (Some (c :: r)), w2. by rewrite Ht2, Ht1. }
      split; [done|]. intros He Hw.
      destruct (guarded_append_cases (log_file_name name) line w)
        as [[? _]|[(_ & Hl & _)|(_ & _ & E)]]; [congruence| |congruence].
      rewrite Hline, He, andb_false_r in Hl. done.
    + split; [done|]. split.
      { intros _. exists w1, None, w2. by rewrite Ht2, Ht1. }
      split; [done|]. intros He Hw.
      destruct (guarded_append_cases (log_file_name name) line w)
        as [[? _]|[(_ & Hl & _)|(_ & _ & E)]]; [congruence| |congruence].
      rewrite Hline, He, andb_false_r in Hl. done.
    + split; [intros _ _; by rewrite Ht2, Ht1|]. split; [done|]. split.
      { intros _ He _. destruct (Hret He) as (response & [=]). }
      intros He Hw.
      destruct (guarded_append_cases (log_file_name name) line w)
        as [[? _]|[(_ & Hl & _)|(_ & _ & E)]]; [congruence| |congruence].
      rewrite Hline, He, andb_false_r in Hl. done.
  - simpl. split; [done|]. split; [done|]. split.
    + intros Hc He Hn.
      destruct (guarded_append_cases (log_file_name name) line w)
        as [[_ E]|[(_ & _ & E)|(_ & Hl & _)]].
      * rewrite log_file_path_ok in E by done. congruence.
      * congruence.
      * rewrite Hline, Hc, He, Hn in Hl. done.
    + intros He Hw.
      destruct (guarded_append_cases (log_file_name name) line w)
        as [[? _]|[(_ & Hl & _)|(_ & _ & E)]]; [congruence| |congruence].
      rewrite Hline, He, andb_false_r in Hl. done.
Qed.

End update_facts.

(** ** The poll *)

(** X21. [get_updates] never returns an empty list.  It returns updates
    only for an ok answer with a non-empty result, and then the cursor is
    the [update_id] of the last one; in every other case (failure, ok
    missing or false, result missing or empty) it returns [None] and the
    cursor is unchanged. *)
Theorem get_updates_result (resp : http_result) (w : world) :
  match (get_updates resp w).1 with
  | Some updates =>
      (∃ data, resp = Json data ∧ env_ok data = Some true ∧
               env_result data = Some updates) ∧
      ∃ earlier last_update,
        updates = earlier ++ [last_update] ∧
        offset (get_updates resp w).2 = update_id last_update
  | None =>
      offset (get_updates resp w).2 = offset w ∧
      ∀ data, resp = Json data → env_ok data = Some true →
              env_result data = None ∨ env_result data = Some []
  end.
Proof.
  destruct resp as [| | |[ok res]]; simpl; try (split; [done|]; by intros data [=]).
  destruct ok as [[]|]; simpl.
  - destruct res as [[|u us]|]; cbn -[List.last].
    + split; [done|]. intros data [= <-] _. by right.
    + split; [by eexists|].
      destruct (exists_last (l:=u :: us)) as (earlier & x & E); [done|].
      exists earlier, x. split; [done|].
      change (update_id (List.last (u :: us) u) = update_id x).
      rewrite E. by rewrite last_last.
    + split; [done|]. intros data [= <-] _. by left.
  - split; [done|]. by intros data [= <-] [=].
  - split; [done|]. by intros data [= <-] [=].
Qed.

(** ** The loop *)

Section run_facts.
Context {U : Unicode}.

(** What one update can do to the world: a log line, a learned phrase, a
    reply. *)
Lemma handle_update_world (rnd : nat) (update : tg_update) (w : world) :
  ∃ logname chat_number w1 w2,
    appended_to (log_file_name logname) w w1 ∧
    appended_to (corpus_file chat_number) w1 w2 ∧
    ((handle_update rnd update w).2 = w2 ∨
     ∃ chat_id reply, (handle_update rnd update w).2 = emit (EvSendMessage chat_id reply) w2).
Proof.
  unfold handle_update, bind.
  destruct (extract_message_info_world update w) as (logname & Hx).
  destruct (extract_message_info update w) as [[[info|]|e] w1]; simpl in Hx.
  - destruct info as [[[text chat_id] chat_name] chat_number].
    pose proof (process_message_world text chat_name (PyInt chat_number) rnd w1) as Hp.
    destruct (process_message _ _ _ _ w1) as [[[[|c r]|]|e] w2]; simpl in Hp |- *;
      exists logname, (PyInt chat_number), w1, w2;
      (split; [done|]); (split; [done|]); eauto.
  - exists logname, (PyInt 0), w1, w1. split; [done|]. split; [by left|]. eauto.
  - exists logname, (PyInt 0), w1, w1. split; [done|]. split; [by left|]. eauto.
Qed.

Lemma handle_update_files (rnd : nat) (update : tg_update) (w : world)
    (path : pystr) :
  py_startswith (str "chatlogs/") path = false →
  py_startswith (str "dict/") path = false →
  files (handle_update rnd update w).2 !! path = files w !! path.
Proof.
  intros Hlog Hdict.
  destruct (handle_update_world rnd update w)
    as (logname & chat_number & w1 & w2 & H1 & H2 & H3).
  assert (files w1 !! path = files w !! path) as E1.
  { eapply appended_to_frame; [done|]. intros ->. discriminate. }
  assert (files w2 !! path = files w1 !! path) as E2.
  { eapply appended_to_frame; [done|]. intros ->. discriminate. }
  destruct H3 as [->|(chat_id & reply & ->)]; simpl; by rewrite E2, E1.
Qed.

Lemma handle_update_env (rnd : nat) (update : tg_update) (w : world) :
  offset (handle_update rnd update w).2 = offset w ∧
  getpid (handle_update rnd update w).2 = getpid w ∧
  can_remove (handle_update rnd update w).2 = can_remove w ∧
  ∃ sends, trace (handle_update rnd update w).2 = trace w ++ sends ∧
           Forall (λ e, is_send e = true) sends ∧ length sends ≤ 1.
Proof.
  destruct (handle_update_world rnd update w)
    as (logname & chat_number & w1 & w2 & H1 & H2 & H3).
  destruct (appended_to_env _ _ _ H1) as (T1 & O1 & _ & _ & R1 & _ & P1).
  destruct (appended_to_env _ _ _ H2) as (T2 & O2 & _ & _ & R2 & _ & P2).
  destruct H3 as [->|(chat_id & reply & ->)]; simpl.
  - split; [congruence|]. split; [congruence|]. split; [congruence|]. exists [].
    rewrite app_nil_r. split; [congruence|]. split; [done|simpl; lia].
  - split; [congruence|]. split; [congruence|]. split; [congruence|]. eexists.
    split; [by rewrite T2, T1|]. split; [by repeat constructor|simpl; lia].
Qed.

Lemma learn_phrase_all_closed (phrase : pystr) (chat_number : pyarg) (w : world) :
  all_closed w → all_closed (learn_phrase phrase chat_number w).2.
Proof.
  intros Hc chat content.
  destruct (decide (corpus_file chat = corpus_file chat_number)) as [E|E].
  - rewrite E. intros Hf.
    pose proof (learn_phrase_closed phrase chat_number w) as Hk.
    unfold corpus_closed in Hk. rewrite Hf in Hk. apply Hk.
    destruct (files w !! corpus_file chat_number) eqn:Ef; [|done].
    by apply (Hc chat_number).
  - rewrite learn_phrase_frame by done. apply Hc.
Qed.

Lemma process_message_closed (message chat_name : pystr) (chat_number : pyarg)
    (rnd : nat) (w : world) :
  all_closed w → all_closed (process_message message chat_name chat_number rnd w).2.
Proof.
  intros Hc. unfold process_message, bind, ret.
  repeat match goal with |- context [if ?b then _ else _] => destruct b end;
    try done.
  pose proof (learn_phrase_all_closed (nth 1 (py_split1 32 message) [])
                chat_number w Hc) as H.
  by destruct (learn_phrase _ _ w) as [[[]|e] w'].
Qed.

Lemma handle_update_closed (rnd : nat) (update : tg_update) (w : world) :
  all_closed w → all_closed (handle_update rnd update w).2.
Proof.
  intros Hc. unfold handle_update, bind.
  destruct (extract_message_info_world update w) as (logname & Hx).
  assert (C1 : all_closed (extract_message_info update w).2).
  { intros chat content. rewrite (appended_to_frame _ _ _ _ Hx); [apply Hc|].
    intros E. symmetry in E. revert E. apply log_file_name_not_corpus. }
  destruct (extract_message_info update w) as [[[info|]|e] w1]; simpl in C1;
    [|done..].
  destruct info as [[[text chat_id] chat_name] chat_number].
  pose proof (process_message_closed text chat_name (PyInt chat_number) rnd w1 C1)
    as C2.
  by destruct (process_message _ _ _ _ w1) as [[[[|c r]|]|e] w2].
Qed.

Lemma handle_updates_inv (P : world → Prop) :
  (∀ rnd update w, P w → P (handle_update rnd update w).2) →
  ∀ rnd updates w, P w → P (handle_updates rnd updates w).2.
Proof.
  intros Hstep rnd updates. revert rnd.
  induction updates as [|u us IH]; intros rnd w Hw; [done|].
  rewrite handle_updates_cons. specialize (Hstep (rnd 0) u w Hw).
  destruct (handle_update (rnd 0) u w) as [[[]|e] w1]; [|done].
  by apply IH.
Qed.

Lemma handle_updates_sends (rnd : nat → nat) (updates : list tg_update) (w : world) :
  ∃ sends, trace (handle_updates rnd updates w).2 = trace w ++ sends ∧
           Forall (λ e, is_send e = true) sends ∧ length sends ≤ length updates.
Proof.
  revert rnd w. induction updates as [|u us IH]; intros rnd w.
  { exists []. by rewrite app_nil_r. }
  rewrite handle_updates_cons.
  destruct (handle_update_env (rnd 0) u w) as (_ & _ & _ & s1 & T1 & F1 & L1).
  destruct (handle_update (rnd 0) u w) as [[[]|e] w1]; simpl in T1.
  - destruct (IH (λ k, rnd (S k)) w1) as (s2 & T2 & F2 & L2).
    exists (s1 ++ s2). rewrite T2, T1, app_assoc. split; [done|].
    split; [by apply Forall_app|]. rewrite length_app. simpl. lia.
  - exists s1. split; [done|]. split; [done|]. simpl. lia.
Qed.

End run_facts.

(** ** The lock *)

Lemma run_lock_cases (w : world) :
  (lock_is_live w ∧ run_lock w = AlreadyRunning) ∨
  (¬ lock_is_live w ∧
   run_lock w = match write_file lock_file (py_str_int (getpid w)) w with
                | Some w' => Locked w'
                | None => CannotLock
                end).
Proof.
  unfold run_lock, read_file, lock_is_live.
  change (os_path_exists lock_file w)
    with (match files w !! lock_file with Some _ => true | None => false end).
  destruct (files w !! lock_file) as [content|] eqn:Ef.
  - destruct (can_read w lock_file) eqn:Er.
    + change (os_path_exists (str "/proc/" ++ py_strip content) w)
        with (proc_entries w (py_strip content)).
      destruct (proc_entries w (py_strip content)) eqn:Ep.
      * left. split; [by exists content|done].
      * right. split; [|done]. intros (c & [= <-] & _ & Hp). congruence.
    + right. split; [|done]. intros (c & _ & Hr & _). congruence.
  - right. split; [|done]. by intros (c & [=] & _).
Qed.

(** X22. [run] refuses to start exactly when the lock file exists, can be
    read and names an entry of /proc.  Otherwise (no lock file, unreadable
    lock file, dead process) it writes its process id into the lock file
    and enters the loop, or returns without polling when the lock file
    cannot be written. *)
Theorem run_lock_outcomes {U : Unicode} (script : list tick) (w : world) :
  (run_lock w = AlreadyRunning ↔ lock_is_live w) ∧
  (¬ lock_is_live w → can_write w lock_file = false →
   run_lock w = CannotLock ∧ run script w = LockFailed w) ∧
  (¬ lock_is_live w → can_write w lock_file = true →
   ∃ w', run_lock w = Locked w' ∧
         files w' !! lock_file = Some (py_str_int (getpid w)) ∧
         (∀ path, path ≠ lock_file → files w' !! path = files w !! path) ∧
         trace w' = trace w ∧ offset w' = offset w ∧
         run script w = run_loop script w').
Proof.
  split; [|split].
  - destruct (run_lock_cases w) as [[Hl ->]|[Hl ->]]; [done|].
    unfold write_file. by destruct (can_write w lock_file).
  - intros Hl Hw. destruct (run_lock_cases w) as [[? _]|[_ E]]; [done|].
    unfold write_file in E. rewrite Hw in E. unfold run. by rewrite E.
  - intros Hl Hw. destruct (run_lock_cases w) as [[? _]|[_ E]]; [done|].
    unfold write_file in E. rewrite Hw in E. eexists. split; [exact E|].
    simpl. rewrite lookup_insert_eq. split; [done|].
    split; [intros path Hp; by rewrite lookup_insert_ne|].
    unfold run. by rewrite E.
Qed.

Section loop_turns.
Context {U : Unicode}.

Lemma handle_updates_files (rnd : nat → nat) (updates : list tg_update) (w : world)
    (path : pystr) :
  py_startswith (str "chatlogs/") path = false →
  py_startswith (str "dict/") path = false →
  files (handle_updates rnd updates w).2 !! path = files w !! path.
Proof.
  intros Hl Hd.
  apply (handle_updates_inv (λ w', files w' !! path = files w !! path)); [|done].
  intros r u w' <-. by apply handle_update_files.
Qed.

Lemma handle_updates_env (rnd : nat → nat) (updates : list tg_update) (w : world) :
  offset (handle_updates rnd updates w).2 = offset w ∧
  getpid (handle_updates rnd updates w).2 = getpid w ∧
  can_remove (handle_updates rnd updates w).2 = can_remove w.
Proof.
  apply (handle_updates_inv
    (λ w', offset w' = offset w ∧ getpid w' = getpid w ∧ can_remove w' = can_remove w));
    [|done].
  intros r u w' (<- & <- & <-).
  destruct (handle_update_env r u w') as (? & ? & ? & _). done.
Qed.

Lemma run_iteration_world (resp : http_result) (rnd : nat → nat) (w : world) :
  ∃ w1 k,
    run_iteration resp rnd w = emit (EvSleep k) w1 ∧ (k = 1 ∨ k = 2) ∧
    match (get_updates resp w).1 with
    | Some updates =>
        w1 = (handle_updates rnd updates (get_updates resp w).2).2 ∧
        (k = 2 ↔ ∃ e, (handle_updates rnd updates (get_updates resp w).2).1 = Raise e)
    | None => w1 = (get_updates resp w).2 ∧ k = 1
    end.
Proof.
  unfold run_iteration, run_batch.
  destruct (get_updates resp w) as [[updates|] w0]; simpl.
  - destruct (handle_updates rnd updates w0) as [[[]|e] w1]; simpl.
    + exists w1, 1. split; [done|]. split; [by left|]. split; [done|].
      split; [done|]. by intros (e & [=]).
    + exists w1, 2. split; [done|]. split; [by right|]. split; [done|].
      split; [by eexists|done].
  - exists w0, 1. split; [done|]. split; [by left|]. done.
Qed.

Lemma get_updates_env (resp : http_result) (w : world) :
  files (get_updates resp w).2 = files w ∧
  getpid (get_updates resp w).2 = getpid w ∧
  can_remove (get_updates resp w).2 = can_remove w ∧
  trace (get_updates resp w).2 = trace w ++ [EvGetUpdates (offset w + 1) 100 30].
Proof. by destruct resp as [| | |[[[]|] [[|u us]|]]]. Qed.

Lemma run_iteration_files (resp : http_result) (rnd : nat → nat) (w : world)
    (path : pystr) :
  py_startswith (str "chatlogs/") path = false →
  py_startswith (str "dict/") path = false →
  files (run_iteration resp rnd w) !! path = files w !! path ∧
  getpid (run_iteration resp rnd w) = getpid w ∧
  can_remove (run_iteration resp rnd w) = can_remove w.
Proof.
  intros Hl Hd. destruct (run_iteration_world resp rnd w) as (w1 & k & -> & _ & Hw).
  destruct (get_updates_env resp w) as (Ef & Ep & Er & _). simpl.
  destruct ((get_updates resp w).1) as [updates|].
  - destruct Hw as [-> _]. rewrite handle_updates_files by done.
    destruct (handle_updates_env rnd updates (get_updates resp w).2) as (_ & -> & ->).
    by rewrite Ef, Ep, Er.
  - destruct Hw as [-> _]. by rewrite Ef, Ep, Er.
Qed.

(** The [finally] block: the lock file is gone when it can be removed, and
    stays as it is when it cannot. *)
Lemma remove_lock_file (w : world) :
  files (remove_file lock_file w) !! lock_file =
  if can_remove w lock_file then None else files w !! lock_file.
Proof.
  unfold remove_file. destruct (can_remove w lock_file); [|done].
  simpl. by rewrite lookup_delete_eq.
Qed.

(** X23. As long as the loop runs, whatever the server answers and whatever
    a batch raises, the lock file holds the process id.  When an interrupt
    ends the loop, between two turns, during the poll or during a pause, the
    lock file is removed if the system lets it be removed; if it does not,
    the failure is swallowed and the lock file stays, still holding the
    process id. *)
Theorem lock_is_held_while_running (script : list tick) (w : world) :
  files w !! lock_file = Some (py_str_int (getpid w)) →
  match run_loop script w with
  | Running w' => files w' !! lock_file = Some (py_str_int (getpid w))
  | Stopped w' | Aborted w' =>
      files w' !! lock_file =
      if can_remove w lock_file then None else Some (py_str_int (getpid w))
  | Refused _ | LockFailed _ => False
  end.
Proof.
  revert w. induction script as [|[resp rnd| | |resp rnd] script IH]; intros w Hlock;
    cbn [run_loop].
  - done.
  - destruct (run_iteration_files resp rnd w lock_file eq_refl eq_refl)
      as (Ef & Ep & Er).
    specialize (IH (run_iteration resp rnd w)). rewrite Ef, Ep, Er in IH.
    by apply IH.
  - by rewrite remove_lock_file, Hlock.
  - rewrite remove_lock_file. simpl. by rewrite Hlock.
  - destruct (run_iteration_files resp rnd w lock_file eq_refl eq_refl)
      as (Ef & Ep & Er).
    assert (files (remove_file lock_file (run_iteration resp rnd w)) !! lock_file =
            if can_remove w lock_file then None else Some (py_str_int (getpid w))).
    { by rewrite remove_lock_file, Er, Ef, Hlock. }
    by destruct ((run_batch resp rnd w).1).
Qed.

(** X24. One turn of the loop is a poll after the cursor, then at most one
    reply per update, then one pause: the doubled pause exactly when
    handling the batch raised, the plain one otherwise.  Handling never
    moves the cursor, and a turn whose poll returned nothing sends nothing
    and changes no file. *)
Theorem turn_of_the_loop (resp : http_result) (rnd : nat → nat) (w : world) :
  ∃ sends k,
    trace (run_iteration resp rnd w) =
      trace w ++ EvGetUpdates (offset w + 1) 100 30 :: sends ++ [EvSleep k] ∧
    Forall (λ e, is_send e = true) sends ∧
    (k = 1 ∨ k = 2) ∧
    offset (run_iteration resp rnd w) = offset (get_updates resp w).2 ∧
    match (get_updates resp w).1 with
    | Some updates =>
        length sends ≤ length updates ∧
        (k = 2 ↔ ∃ e, (handle_updates rnd updates (get_updates resp w).2).1 = Raise e)
    | None => sends = [] ∧ k = 1 ∧ files (run_iteration resp rnd w) = files w
    end.
Proof.
  destruct (run_iteration_world resp rnd w) as (w1 & k & -> & Hk & Hw).
  destruct (get_updates_env resp w) as (Ef & _ & _ & Et). simpl.
  destruct ((get_updates resp w).1) as [updates|].
  - destruct Hw as [-> Hk2].
    destruct (handle_updates_sends rnd updates (get_updates resp w).2)
      as (sends & Ts & Fs & Ls).
    exists sends, k. rewrite Ts, Et, <- !app_assoc. split; [done|].
    split; [done|]. split; [done|].
    split; [apply handle_updates_env|]. done.
  - destruct Hw as [-> ->]. exists [], 1. rewrite Et, <- app_assoc.
    split; [done|]. split; [done|]. split; [by left|]. done.
Qed.

End loop_turns.

Lemma get_updates_last (batch : list tg_update) (w : world) :
  batch ≠ [] →
  (get_updates (Json (TgEnvelope (Some true) (Some batch))) w).1 = Some batch ∧
  ∃ earlier last_update,
    batch = earlier ++ [last_update] ∧
    offset (get_updates (Json (TgEnvelope (Some true) (Some batch))) w).2
    = update_id last_update.
Proof.
  intros Hne. destruct batch as [|u us]; [done|]. split; [done|].
  destruct (exists_last (l:=u :: us)) as (earlier & x & E); [done|].
  exists earlier, x. split; [done|].
  change (update_id (List.last (u :: us) u) = update_id x).
  rewrite E. by rewrite last_last.
Qed.

Section loop_batches.
Context {U : Unicode}.

(** X25. A batch stops at the first update on which
    [extract_message_info] raises: the updates after it are not handled,
    the turn ends with the doubled pause, and the cursor already stands at
    the [update_id] of the last update of the batch. *)
Theorem batch_stops_at_raising_update (rnd : nat → nat)
    (handled : list tg_update) (bad : tg_update) (dropped : list tg_update)
    (w w1 : world) :
  raising bad →
  handle_updates rnd handled
    (get_updates (Json (TgEnvelope (Some true) (Some (handled ++ bad :: dropped)))) w).2
  = (Ret tt, w1) →
  run_iteration (Json (TgEnvelope (Some true) (Some (handled ++ bad :: dropped))))
    rnd w = emit (EvSleep 2) w1 ∧
  ∃ earlier last_update,
    handled ++ bad :: dropped = earlier ++ [last_update] ∧
    offset w1 = update_id last_update.
Proof.
  intros (e & Hbad)%extract_raising Hpre.
  set (batch := handled ++ bad :: dropped) in *.
  set (resp := Json (TgEnvelope (Some true) (Some batch))) in *.
  destruct (get_updates_last batch w) as (Hsome & earlier & x & Eb & Eo).
  { unfold batch. by destruct handled. }
  fold resp in Hsome, Eo.
  assert (Hall : handle_updates rnd batch (get_updates resp w).2 = (Raise e, w1)).
  { unfold batch. rewrite handle_updates_app, Hpre, handle_updates_cons.
    unfold handle_update, bind. by rewrite Hbad. }
  split.
  - unfold run_iteration, run_batch. destruct (get_updates resp w) as [r w0].
    simpl in *. subst r. by rewrite Hall.
  - exists earlier, x. split; [done|]. rewrite <- Eo.
    destruct (handle_updates_env rnd handled (get_updates resp w).2) as [Ho _].
    by rewrite Hpre in Ho.
Qed.

Lemma run_iteration_closed (resp : http_result) (rnd : nat → nat) (w : world) :
  all_closed w → all_closed (run_iteration resp rnd w).
Proof.
  intros Hc. destruct (run_iteration_world resp rnd w) as (w1 & k & -> & _ & Hw).
  assert (H0 : all_closed (get_updates resp w).2).
  { intros chat content. destruct (get_updates_env resp w) as (-> & _). apply Hc. }
  assert (all_closed w1); [|done].
  destruct ((get_updates resp w).1) as [updates|]; destruct Hw as [-> _]; [|done].
  apply (handle_updates_inv all_closed); [|done].
  intros r u w'. apply handle_update_closed.
Qed.

(** X26. [run] keeps every corpus file closed (empty or ending with a line
    feed): if all are closed at the start, all are closed wherever [run]
    has got to. *)
Theorem corpus_files_stay_closed (script : list tick) (w : world) :
  all_closed w → all_closed (world_of (run script w)).
Proof.
  intros Hc. unfold run.
  destruct (run_lock_cases w) as [[_ ->]|[_ ->]]; [done|].
  unfold write_file. destruct (can_write w lock_file); [|done].
  assert (Hc' : all_closed
            (with_files (<[lock_file:=py_str_int (getpid w)]> (files w)) w)).
  { intros chat content. simpl. rewrite lookup_insert_ne by discriminate. apply Hc. }
  revert Hc'. generalize (with_files (<[lock_file:=py_str_int (getpid w)]> (files w)) w).
  assert (Hrm : ∀ w0, all_closed w0 → all_closed (remove_file lock_file w0)).
  { intros w0 H0 chat content. unfold remove_file.
    destruct (can_remove w0 lock_file); [|apply H0].
    simpl. rewrite lookup_delete_ne by discriminate. apply H0. }
  clear Hc. induction script as [|[resp rnd| | |resp rnd] script IH]; intros w0 Hc;
    cbn [run_loop].
  - done.
  - apply IH. by apply run_iteration_closed.
  - by apply Hrm.
  - by apply Hrm.
  - assert (all_closed (remove_file lock_file (run_iteration resp rnd w0))).
    { by apply Hrm, run_iteration_closed. }
    by destruct ((run_batch resp rnd w0).1).
Qed.

End loop_batches.

(** ** The properties at concrete inputs *)

Lemma lcs_of_contained_word_witness :
  longest_common_substring (str "yellow") (str "low") = str "low" ∧
  longest_common_substring (str "low") (str "yellow") = str "low".
Proof.
  apply lcs_of_contained_word. by exists (str "yel"), [].
Defined.

Lemma words_are_wellformed_witness :
  1 ≤ length (str "hello") ∧
  Forall (λ c, py_isspace c = false ∧ ¬ In c string_punctuation) (str "hello").
Proof.
  apply (words_are_wellformed (U:=ascii_tables) (str "Hello, World!")).
  vm_compute. by left.
Defined.

Lemma no_shared_character_no_reply_witness :
  find_similar_phrases (U:=ascii_tables) (str "xyz") (PyInt 1) 0
    (learn_phrase (str "hello") (PyInt 1) empty_world).2 = None.
Proof.
  apply (no_shared_character_no_reply (U:=ascii_tables)).
  intros phrase mw pw c Hp Hmw Hpw Hc Hc'.
  vm_compute in Hp. destruct Hp as [<-|[]].
  vm_compute in Hmw. destruct Hmw as [<-|[]].
  vm_compute in Hpw. destruct Hpw as [<-|[]].
  vm_compute in Hc, Hc'. intuition (subst; discriminate).
Defined.

Lemma contained_word_qualifies_witness :
  In (str "low tide")
     (qualifying (U:=ascii_tables) (str "A yellowish sky") (PyInt 1)
        (learn_phrase (str "low tide") (PyInt 1) empty_world).2).
Proof.
  apply (contained_word_qualifies (U:=ascii_tables) (str "A yellowish sky")
           (str "low tide") (str "yellowish") (str "low") (PyInt 1) 0).
  - vm_compute. by left.
  - vm_compute. right. by left.
  - vm_compute. by left.
  - by exists (str "yel"), (str "ish").
Defined.

Lemma reply_is_a_learned_phrase_witness :
  In (str "hello world")
     (load_phrases (PyInt 1) (learn_phrase (str "hello world") (PyInt 1) empty_world).2).
Proof.
  apply (reply_is_a_learned_phrase (U:=ascii_tables) (str "hello") (str "hello world")
           (PyInt 1) 0).
  reflexivity.
Defined.

Lemma no_corpus_no_reply_witness :
  find_similar_phrases (U:=ascii_tables) (str "hello") (PyInt 1) 0 empty_world = None.
Proof.
  apply (no_corpus_no_reply (U:=ascii_tables)). by left.
Defined.

Lemma other_chats_unaffected_witness :
  load_phrases (PyInt 2) (learn_phrase (str "hello") (PyInt 1) empty_world).2
  = load_phrases (PyInt 2) empty_world.
Proof.
  apply (other_chats_unaffected (U:=ascii_tables) 1 2 (str "hello") [] 0).
  discriminate.
Defined.

Lemma learned_phrase_is_found_witness :
  ∃ reply,
    find_similar_phrases (U:=ascii_tables) (stored_phrase (str " cats are great "))
      (PyInt 1) 0 (learn_phrase (str " cats are great ") (PyInt 1) empty_world).2
    = Some reply.
Proof.
  apply (learned_phrase_is_found (U:=ascii_tables)).
  - exact I.
  - reflexivity.
  - reflexivity.
  - reflexivity.
  - repeat constructor.
  - vm_compute. discriminate.
Defined.

Lemma learning_twice_stores_twice_witness :
  load_phrases (PyInt 1)
    (learn_phrase (str "hi there") (PyInt 1)
       (learn_phrase (str "hi there") (PyInt 1) empty_world).2).2
  = load_phrases (PyInt 1) empty_world
    ++ [stored_phrase (str "hi there"); stored_phrase (str "hi there")].
Proof.
  apply learning_twice_stores_twice.
  - exact I.
  - reflexivity.
  - reflexivity.
  - vm_compute. discriminate.
  - reflexivity.
  - repeat constructor.
Defined.

Lemma textless_updates_are_skipped_witness :
  handle_updates (U:=ascii_tables) (λ _, 0)
    [TgUpdate 1 None; TgUpdate 2 (Some (TgMessage None None None))] empty_world
  = (Ret tt, empty_world).
Proof.
  apply (textless_updates_are_skipped (U:=ascii_tables) _ _ []).
  repeat constructor.
Defined.

Lemma private_message_is_extracted_witness :
  (extract_message_info (U:=ascii_tables) hello_private empty_world).1
  = Ret (Some (str "hello", 7%Z, str "User ", 7%Z)) ∧
  files (extract_message_info (U:=ascii_tables) hello_private empty_world).2
    !! str "chatlogs/User_log.txt"
  = Some (str "Thu Jan  1 00:00:00 1970 >> Message from User : hello" ++ [10%N]) ∧
  (extract_message_info (U:=ascii_tables) surrogate_private empty_world).1
  = Raise UnicodeEncodeError ∧
  files (extract_message_info (U:=ascii_tables) surrogate_private empty_world).2
    !! str "chatlogs/User_log.txt" = Some [].
Proof.
  destruct (private_message_is_extracted (U:=ascii_tables) hello_private
              (str "hello") 7%Z empty_user empty_world)
    as (_ & Hok & _).
  { eexists _, _. repeat split; discriminate. }
  destruct (private_message_is_extracted (U:=ascii_tables) surrogate_private
              [55357%N] 7%Z empty_user empty_world)
    as (_ & _ & Hbad & _).
  { eexists _, _. repeat split; discriminate. }
  destruct Hok as (Hret & Hfile & _); [vm_compute; reflexivity|].
  destruct Hbad as (Hraise & Hkept); [vm_compute; reflexivity|vm_compute; reflexivity|].
  specialize (Hfile eq_refl).
  vm_compute in Hret, Hfile, Hraise, Hkept |- *.
  split; [exact Hret|]. split; [exact Hfile|].
  split; [exact Hraise|exact Hkept].
Defined.

Lemma every_reply_is_sent_witness :
  (handle_update (U:=ascii_tables) 0 hello_private
     (learn_phrase (str "hello world") (PyInt 7) empty_world).2).1 = Ret tt ∧
  (∃ w2, (handle_update (U:=ascii_tables) 0 hello_private
            (learn_phrase (str "hello world") (PyInt 7) empty_world).2).2
         = emit (EvSendMessage 7 (str "hello world")) w2 ∧ trace w2 = []) ∧
  (handle_update (U:=ascii_tables) 0 surrogate_private
     (learn_phrase (str "hello world") (PyInt 7) empty_world).2).1
  = Raise UnicodeEncodeError ∧
  trace (handle_update (U:=ascii_tables) 0 surrogate_private
           (learn_phrase (str "hello world") (PyInt 7) empty_world).2).2 = [].
Proof.
  destruct (every_reply_is_sent (U:=ascii_tables) 0 hello_private
              (str "hello") 7%Z empty_user
              (learn_phrase (str "hello world") (PyInt 7) empty_world).2)
    as (_ & Hsent & Hret & _).
  { eexists _, _. repeat split; discriminate. }
  destruct (every_reply_is_sent (U:=ascii_tables) 0 surrogate_private
              [55357%N] 7%Z empty_user
              (learn_phrase (str "hello world") (PyInt 7) empty_world).2)
    as (Hquiet & _ & _ & Hraise).
  { eexists _, _. repeat split; discriminate. }
  assert (Hr : (handle_update (U:=ascii_tables) 0 hello_private
     (learn_phrase (str "hello world") (PyInt 7) empty_world).2).1 = Ret tt).
  { apply Hret; vm_compute; reflexivity. }
  assert (Hx : (handle_update (U:=ascii_tables) 0 surrogate_private
     (learn_phrase (str "hello world") (PyInt 7) empty_world).2).1
  = Raise UnicodeEncodeError).
  { apply Hraise; vm_compute; reflexivity. }
  destruct (Hsent Hr) as (w1 & response & w2 & Hi & Hp & Ht & Hw).
  split; [exact Hr|]. split.
  - exists w2. split.
    + rewrite Hw. vm_compute in Hi. injection Hi as <-.
      vm_compute in Hp. injection Hp as <- <-. vm_compute. reflexivity.
    + rewrite Ht. vm_compute. reflexivity.
  - split; [exact Hx|]. rewrite (Hquiet _ Hx). vm_compute. reflexivity.
Defined.

Lemma lock_is_held_while_running_witness :
  files (world_of (run_loop (U:=ascii_tables) [Tick NetworkError (λ _, 0)]
           (with_files {[ lock_file := str "4242" ]} empty_world)))
    !! lock_file = Some (str "4242") ∧
  files (world_of (run_loop (U:=ascii_tables)
           [Tick NetworkError (λ _, 0); PauseInterrupt HttpError (λ _, 0)]
           (with_files {[ lock_file := str "4242" ]} empty_world)))
    !! lock_file = None ∧
  files (world_of (run_loop (U:=ascii_tables) [Interrupt]
           (World {[ lock_file := str "4242" ]} (λ _, true) (λ _, true)
              (λ _, false) (λ _, false) (λ _ _, true) [] 4242 0 [])))
    !! lock_file = Some (str "4242").
Proof.
  pose proof (lock_is_held_while_running (U:=ascii_tables)
                [Tick NetworkError (λ _, 0)]
                (with_files {[ lock_file := str "4242" ]} empty_world)) as H1.
  pose proof (lock_is_held_while_running (U:=ascii_tables)
                [Tick NetworkError (λ _, 0); PauseInterrupt HttpError (λ _, 0)]
                (with_files {[ lock_file := str "4242" ]} empty_world)) as H2.
  pose proof (lock_is_held_while_running (U:=ascii_tables) [Interrupt]
                (World {[ lock_file := str "4242" ]} (λ _, true) (λ _, true)
                   (λ _, false) (λ _, false) (λ _ _, true) [] 4242 0 [])) as H3.
  split; [|split].
  - cbn [run_loop] in H1. apply H1. vm_compute. reflexivity.
  - cbn [run_loop] in H2. cbn [run_loop world_of].
    change ((run_batch (U:=ascii_tables) HttpError (λ _, 0)
               (run_iteration (U:=ascii_tables) NetworkError (λ _, 0)
                  (with_files {[ lock_file := str "4242" ]} empty_world))).1)
      with (@Ret unit tt) in H2 |- *.
    cbn [world_of]. apply H2. vm_compute. reflexivity.
  - cbn [run_loop] in H3. apply H3. vm_compute. reflexivity.
Defined.

Lemma batch_stops_at_raising_update_witness :
  trace (run_iteration (U:=ascii_tables)
           (Json (TgEnvelope (Some true) (Some ([] ++ hello_group :: [hello_private]))))
           (λ _, 0) (learn_phrase (str "hello world") (PyInt 7) empty_world).2)
  = [EvGetUpdates 1 100 30; EvSleep 2].
Proof.
  destruct (batch_stops_at_raising_update (U:=ascii_tables) (λ _, 0) []
              hello_group [hello_private]
              (learn_phrase (str "hello world") (PyInt 7) empty_world).2
              (get_updates
                 (Json (TgEnvelope (Some true)
                          (Some ([] ++ hello_group :: [hello_private]))))
                 (learn_phrase (str "hello world") (PyInt 7) empty_world).2).2)
    as [Hrun _].
  - eexists _, _. split; [reflexivity|]. split; [reflexivity|]. simpl. right. by left.
  - reflexivity.
  - rewrite Hrun. reflexivity.
Defined.

Lemma corpus_files_stay_closed_witness :
  all_closed
    (world_of (run (U:=ascii_tables)
                 [Tick (Json (TgEnvelope (Some true) (Some [learn_private]))) (λ _, 0);
                  Tick (Json (TgEnvelope (Some true) (Some [surrogate_private])))
                    (λ _, 0);
                  Interrupt]
                 (learn_phrase (str "good night") (PyInt 7) empty_world).2)) ∧
  files
    (world_of (run (U:=ascii_tables)
                 [Tick (Json (TgEnvelope (Some true) (Some [learn_private]))) (λ _, 0);
                  Tick (Json (TgEnvelope (Some true) (Some [surrogate_private])))
                    (λ _, 0);
                  Interrupt]
                 (learn_phrase (str "good night") (PyInt 7) empty_world).2))
    !! str "dict/7_words.dat"
  = Some (str "good night" ++ [10%N] ++ str "hello world" ++ [10%N]).
Proof.
  split; [|vm_compute; reflexivity].
  apply (corpus_files_stay_closed (U:=ascii_tables)).
  intros chat content H.
  change (files (learn_phrase (str "good night") (PyInt 7) empty_world).2)
    with ({[ str "dict/7_words.dat" := str "good night" ++ [10%N] ]}
          : gmap (list N) (list N)) in H.
  apply lookup_singleton_Some in H as [_ <-].
  right. by exists (str "good night").
Defined.

Lemma fixed_command_replies_witness :
  process_message (U:=ascii_tables) (str "/HELP me please") [] (PyInt 1) 0
    empty_world = (Ret (Some help_text), empty_world) ∧
  process_message (U:=ascii_tables) (str "/Stop") [] (PyInt 1) 0 empty_world
  = (Ret (Some (str "Bot stopped")), empty_world) ∧
  process_message (U:=ascii_tables) (str "/start now") [] (PyInt 1) 0 empty_world
  = (Ret (Some (str "Bot started!")), empty_world).
Proof.
  split; [|split].
  - apply (fixed_command_replies (U:=ascii_tables) (str "/HELP") (str " me please"));
      [reflexivity|vm_compute; intuition discriminate|right; by eexists|reflexivity].
  - apply (fixed_command_replies (U:=ascii_tables) (str "/Stop") []);
      [reflexivity|vm_compute; intuition discriminate|by left|reflexivity].
  - apply (fixed_command_replies (U:=ascii_tables) (str "/start") (str " now"));
      [reflexivity|vm_compute; intuition discriminate|right; by eexists|reflexivity].
Defined.
